(** * working_api.js: the face-matching endpoint

    A shallow embedding of [src/working_api.js]: the remote image loader
    [loadImage], the reference processor [loadLabeledImages] and the
    [POST /] handler, followed by the properties of the request/response
    contract.

    The handler only orchestrates calls into node-fetch, node-canvas and
    face-api.js.  Those libraries, and the parts of the JavaScript runtime
    the code relies on, are collected in a record [World]; every call into
    them is recorded in an event trace so that ordering properties can be
    stated.  Within one request an external call answers as a function of
    its arguments, and the calls of the promises under one [Promise.all]
    are listed promise by promise. *)

From Stdlib Require Import PrimFloat String Ascii List Bool Arith Lia.
From Stdlib.Strings Require Import Byte.
Import ListNotations.
Local Open Scope list_scope.
Local Open Scope string_scope.

Set Warnings "-register-all".

Set Implicit Arguments.

(** ** JavaScript values *)

(** Values that reach the handler through [req.body]: the JSON data model
    plus [undefined], which is what reading an absent property gives.
    Objects list their own properties in order; a lookup takes the first
    binding of a key. *)
Inductive JValue : Type :=
| JUndefined
| JNull
| JBool (b : bool)
| JNum (n : float)
| JStr (s : string)
| JArr (elements : list JValue)
| JObj (properties : list (string * JValue)).

(** Thrown values are [Error] objects; only [message] is ever read. *)
Record JsError : Type := Error { message : string }.

(** ECMAScript ToBoolean, the test behind [!x]. *)
Definition toBoolean (v : JValue) : bool :=
  match v with
  | JUndefined | JNull => false
  | JBool b => b
  | JNum n => negb (PrimFloat.eqb n 0%float) && PrimFloat.eqb n n
  | JStr s => negb (String.eqb s "")
  | JArr _ | JObj _ => true
  end.

(** [Array.isArray]. *)
Definition isArray (v : JValue) : bool :=
  match v with
  | JArr _ => true
  | _ => false
  end.

Fixpoint lookup (key : string) (props : list (string * JValue)) : option JValue :=
  match props with
  | [] => None
  | (k, v) :: rest => if String.eqb k key then Some v else lookup key rest
  end.

Definition hasOwn (key : string) (props : list (string * JValue)) : bool :=
  match lookup key props with
  | Some _ => true
  | None => false
  end.

(** The message V8 gives when a destructuring pattern [{ prop, ... } = src]
    meets [undefined] or [null]. *)
Definition destructureMessage (prop src : string) (v : JValue) : string :=
  "Cannot destructure property '" ++ prop ++ "' of '" ++ src ++ "' as it is "
  ++ (match v with JNull => "null" | _ => "undefined" end) ++ ".".

(** Reading property [key] in a destructuring pattern.  [undefined] and
    [null] cannot be destructured; every other value can, and none of the
    keys the code reads ([dataset], [group_img], [id], [imglink]) lives on
    a prototype, so anything but an own property reads as [undefined]. *)
Definition getProp (src key : string) (v : JValue) : JValue + JsError :=
  match v with
  | JUndefined | JNull => inr (Error (destructureMessage key src v))
  | JObj props =>
      inl (match lookup key props with Some x => x | None => JUndefined end)
  | _ => inl JUndefined
  end.

Definition unprintable : JsError :=
  Error "Cannot convert object to primitive value".

Section Runtime.

(** [Number.prototype.toString], left to the runtime. *)
Variable Number_toString : float -> string.

(** [Array.prototype.join(",")] over already converted elements: the
    first failing conversion throws. *)
Fixpoint joinComma (parts : list (option string)) : option string :=
  match parts with
  | [] => Some ""
  | [p] => p
  | p :: rest =>
      match p, joinComma rest with
      | Some s, Some r => Some (s ++ "," ++ r)
      | _, _ => None
      end
  end.

(** ECMAScript ToString, as performed by a template literal [`${v}`];
    [None] stands for the TypeError of OrdinaryToPrimitive.  A parsed
    JSON object owning a [toString] property holds a non-callable value
    there, and [Object.prototype.valueOf] returns the object itself, so
    no primitive is found.  [join] turns [undefined] and [null] elements
    into the empty string. *)
Fixpoint toStringV (v : JValue) : option string :=
  match v with
  | JUndefined => Some "undefined"
  | JNull => Some "null"
  | JBool true => Some "true"
  | JBool false => Some "false"
  | JNum n => Some (Number_toString n)
  | JStr s => Some s
  | JArr elements =>
      joinComma
        (map (fun e => match e with
                       | JUndefined | JNull => Some ""
                       | _ => toStringV e
                       end) elements)
  | JObj props =>
      if hasOwn "toString" props then None else Some "[object Object]"
  end.

(** The method call [v.toString()]. *)
Definition callToString (name : string) (v : JValue) : string + JsError :=
  match v with
  | JUndefined | JNull =>
      inr (Error ("Cannot read properties of "
                  ++ (match v with JNull => "null" | _ => "undefined" end)
                  ++ " (reading 'toString')"))
  | JObj props =>
      if hasOwn "toString" props
      then inr (Error (name ++ ".toString is not a function"))
      else inl "[object Object]"
  | _ =>
      match toStringV v with
      | Some s => inl s
      | None => inr unprintable
      end
  end.

End Runtime.

(** ** Data of the external libraries *)

Definition Buffer : Type := list byte.

(** A face descriptor is a [Float32Array]. *)
Definition Descriptor : Type := list float.

(** What [response] of node-fetch offers to [loadImage]. *)
Record FetchResponse : Type := {
  ok : bool;
  statusText : string;
  buffer : Buffer + JsError
}.

(** face-api.js [LabeledFaceDescriptors]. *)
Record LabeledFaceDescriptors : Type := {
  ld_label : string;
  descriptors : list Descriptor
}.

(** face-api.js [FaceMatcher]: the inputs and threshold it was built from. *)
Record FaceMatcher : Type := {
  labeledDescriptors : list LabeledFaceDescriptors;
  distanceThreshold : float
}.

(** face-api.js [FaceMatch]. *)
Record FaceMatch : Type := {
  label : string;
  distance : float
}.

(** A detection with its descriptor; the handler reads nothing else. *)
Record Detection : Type := { descriptor : Descriptor }.

Inductive Net : Type := faceRecognitionNet | faceLandmark68Net | ssdMobilenetv1.

(** The HTTP response the handler sends, [res.status(s).json(b)]: the
    status and the value handed to [json] (serialisation omits a property
    whose value is [undefined]). *)
Record Response : Type := { status : nat; body : JValue }.

(** The threshold literal [0.6], that is the nearest double. *)
Definition THRESHOLD : float := 0x1.3333333333333p-1%float.

Section Service.

(** What [canvas.loadImage] resolves to. *)
Context {Image : Type}.

(** ** The outside world *)
Record World : Type := {
  Number_toString : float -> string;
  (** [__dirname] and [path.join] *)
  dirname : string;
  path_join : string -> string -> string;
  (** node-fetch: the promise rejects or resolves to a response *)
  fetch : JValue -> FetchResponse + JsError;
  canvas_loadImage : Buffer -> Image + JsError;
  (** [faceapi.nets.<net>.loadFromDisk(path)] *)
  loadFromDisk : Net -> string -> unit + JsError;
  (** [detectSingleFace(img).withFaceLandmarks().withFaceDescriptor()],
      [None] when the result is [undefined] *)
  detectSingleFace : Image -> option Detection + JsError;
  (** [detectAllFaces(img).withFaceLandmarks().withFaceDescriptors()] *)
  detectAllFaces : Image -> list Detection + JsError;
  (** [matcher.findBestMatch(descriptor)] *)
  findBestMatch : FaceMatcher -> Descriptor -> FaceMatch
}.

(** Calls into the libraries, in the order they are made. *)
Inductive Event : Type :=
| EvLoadFromDisk (net : Net) (path : string)
| EvFetch (url : JValue)
| EvCanvasLoadImage (buf : Buffer)
| EvDetectSingleFace (img : Image)
| EvDetectAllFaces (img : Image)
| EvNewFaceMatcher (inputs : list LabeledFaceDescriptors) (threshold : float)
| EvFindBestMatch (matcher : FaceMatcher) (query : Descriptor).

(** ** Effects: a trace of calls and a value or a thrown error *)
Definition Eff (A : Type) : Type := (list Event * (A + JsError))%type.

Definition trace {A} (m : Eff A) : list Event := fst m.
Definition result {A} (m : Eff A) : A + JsError := snd m.

Definition ret {A} (a : A) : Eff A := ([], inl a).
Definition throw {A} (e : JsError) : Eff A := ([], inr e).
Definition lift {A} (r : A + JsError) : Eff A := ([], r).
Definition call {A} (ev : Event) (r : A + JsError) : Eff A := ([ev], r).

Definition bind {A B} (m : Eff A) (k : A -> Eff B) : Eff B :=
  match result m with
  | inl a => ((trace m ++ trace (k a))%list, result (k a))
  | inr e => (trace m, inr e)
  end.

(** [try { m } catch (e) { h e }] *)
Definition try_catch {A} (m : Eff A) (h : JsError -> Eff A) : Eff A :=
  match result m with
  | inl a => (trace m, inl a)
  | inr e => ((trace m ++ trace (h e))%list, result (h e))
  end.

(** [Promise.all]: every promise has been started, so all their calls
    happen; the result is the list of values, or the rejection of the
    first element that rejects.  Traces are laid out element by element:
    a trace tells which calls are made, not how the calls of different
    elements interleave; and among elements that reject asynchronously
    (the model loads) the one listed first stands for the one that
    rejects first in time. *)
Fixpoint promise_all {A} (ps : list (Eff A)) : Eff (list A) :=
  match ps with
  | [] => ret []
  | p :: rest =>
      let others := promise_all rest in
      ((trace p ++ trace others)%list,
       match result p, result others with
       | inl a, inl l => inl (a :: l)
       | inr e, _ => inr e
       | inl _, inr e => inr e
       end)
  end.

End Service.

Arguments World : clear implicits.
Arguments Event : clear implicits.
Arguments Eff : clear implicits.

Declare Scope eff_scope.
Delimit Scope eff_scope with eff.
Notation "x <- m ;; k" := (bind m (fun x => k))
  (at level 61, m at next level, right associativity) : eff_scope.
Notation "m ;;; k" := (bind m (fun _ => k))
  (at level 61, right associativity) : eff_scope.

(** ** The program *)

Section Program.

Context {Image : Type}.
Variable W : World Image.

Local Open Scope eff_scope.

(** A template literal [`... ${v} ...`]: only whether the conversion of
    [v] throws matters here, the text goes to the console. *)
Definition template (v : JValue) : Eff Image string :=
  match toStringV (Number_toString W) v with
  | Some s => ret s
  | None => throw unprintable
  end.

(** [loadImage(url)], lines 27-40. *)
Definition loadImage (url : JValue) : Eff Image Image :=
  try_catch
    (response <- call (EvFetch url) (fetch W url) ;;
     if negb (ok response)
     then throw (Error ("Failed to fetch image: " ++ statusText response))
     else
       buf <- lift (buffer response) ;;
       image <- call (EvCanvasLoadImage buf) (canvas_loadImage W buf) ;;
       ret image)
    (fun error => throw error).

(** [getAbsoluteModelPath()], lines 43-46. *)
Definition getAbsoluteModelPath : string :=
  path_join W (dirname W) "models".

(** The three [loadFromDisk] calls under [Promise.all], lines 74-78. *)
Definition loadModels (modelPath : string) : Eff Image (list unit) :=
  promise_all
    [ call (EvLoadFromDisk faceRecognitionNet modelPath)
           (loadFromDisk W faceRecognitionNet modelPath);
      call (EvLoadFromDisk faceLandmark68Net modelPath)
           (loadFromDisk W faceLandmark68Net modelPath);
      call (EvLoadFromDisk ssdMobilenetv1 modelPath)
           (loadFromDisk W ssdMobilenetv1 modelPath) ].

(** The calls of the model-loading stage of a request. *)
Definition modelLoads : list (Event Image) :=
  [ EvLoadFromDisk faceRecognitionNet getAbsoluteModelPath;
    EvLoadFromDisk faceLandmark68Net getAbsoluteModelPath;
    EvLoadFromDisk ssdMobilenetv1 getAbsoluteModelPath ].

(** The callback given to [dataset.map], lines 144-173.  The
    destructuring of line 145 sits outside the [try]; the logging
    template of line 170 sits inside the [catch]. *)
Definition processEntry (data : JValue)
  : Eff Image (option LabeledFaceDescriptors) :=
  id <- lift (getProp "data" "id" data) ;;
  imglink <- lift (getProp "data" "imglink" data) ;;
  if negb (toBoolean id) || negb (toBoolean imglink) then ret None
  else
    try_catch
      (template id ;;;
       img <- loadImage imglink ;;
       detection <- call (EvDetectSingleFace img) (detectSingleFace W img) ;;
       match detection with
       | None => template id ;;; ret None
       | Some d =>
           name <- lift (callToString (Number_toString W) "id" id) ;;
           ret (Some {| ld_label := name; descriptors := [descriptor d] |})
       end)
      (fun error => template id ;;; ret None).

(** What the callback resolves to once it has reached the image: a labeled
    descriptor when the image loaded and a face was found, [null] otherwise. *)
Definition outcome (name : string) (loaded : Image + JsError)
  : option LabeledFaceDescriptors :=
  match loaded with
  | inr _ => None
  | inl img =>
      match detectSingleFace W img with
      | inl (Some d) =>
          Some {| ld_label := name; descriptors := [descriptor d] |}
      | _ => None
      end
  end.

(** [labeledDescriptors.filter((desc) => desc !== null)], line 177. *)
Fixpoint filterNotNull {A} (l : list (option A)) : list A :=
  match l with
  | [] => []
  | Some a :: rest => a :: filterNotNull rest
  | None :: rest => filterNotNull rest
  end.

(** [loadLabeledImages(dataset)], lines 140-181. *)
Definition loadLabeledImages (dataset : list JValue)
  : Eff Image (list LabeledFaceDescriptors) :=
  labeledDescriptors <- promise_all (map processEntry dataset) ;;
  ret (filterNotNull labeledDescriptors).

(** [new faceapi.FaceMatcher(inputs, threshold)]; the constructor of
    face-api.js refuses an empty input list. *)
Definition newFaceMatcher (inputs : list LabeledFaceDescriptors)
    (threshold : float) : Eff Image FaceMatcher :=
  call (EvNewFaceMatcher inputs threshold)
    (match inputs with
     | [] => inr (Error "FaceRecognizer.constructor - expected atleast one input")
     | _ => inl {| labeledDescriptors := inputs;
                   distanceThreshold := threshold |}
     end).

(** [detections.map((d) => faceMatcher.findBestMatch(d.descriptor))],
    lines 113-115. *)
Definition bestMatches (faceMatcher : FaceMatcher)
    (detections : list Detection) : Eff Image (list FaceMatch) :=
  (map (fun d => EvFindBestMatch faceMatcher (descriptor d)) detections,
   inl (map (fun d => findBestMatch W faceMatcher (descriptor d)) detections)).

Definition json (s : nat) (b : JValue) : Response :=
  {| status := s; body := b |}.

(** The response bodies. *)
Definition invalidDataset (dataset : JValue) : JValue :=
  JObj [("error", JStr "Invalid dataset format"); ("received", dataset)].

Definition missingGroupImg : JValue :=
  JObj [("error", JStr "Missing group_img")].

Definition modelsFailed (modelError : JsError) : JValue :=
  JObj [("error", JStr "Failed to load face recognition models");
        ("message", JStr (message modelError))].

Definition noDescriptors : JValue :=
  JObj [("error",
         JStr "No valid face descriptors could be generated from the dataset")].

Definition matchEntry (r : FaceMatch) : JValue :=
  JObj [("label", JStr (label r)); ("distance", JNum (distance r))].

Definition success (results : list FaceMatch) : JValue :=
  JObj [("success", JBool true); ("matches", JArr (map matchEntry results))].

Definition groupImageFailed (groupImageError : JsError) : JValue :=
  JObj [("error", JStr "Failed to process group image");
        ("message", JStr (message groupImageError))].

Definition internalError (error : JsError) : JValue :=
  JObj [("error", JStr "Internal server error");
        ("message", JStr (message error))].

(** The group-image stage, lines 104-130. *)
Definition processGroupImage (faceMatcher : FaceMatcher) (group_img : JValue)
  : Eff Image Response :=
  try_catch
    (image <- loadImage group_img ;;
     detections <- call (EvDetectAllFaces image) (detectAllFaces W image) ;;
     results <- bestMatches faceMatcher detections ;;
     ret (json 200 (success results)))
    (fun groupImageError => ret (json 500 (groupImageFailed groupImageError))).

(** Reference processing, matcher and group image, lines 88-130. *)
Definition matchStage (entries : list JValue) (group_img : JValue)
  : Eff Image Response :=
  labeledFaceDescriptors <- loadLabeledImages entries ;;
  if Nat.eqb (length labeledFaceDescriptors) 0 then
    ret (json 400 noDescriptors)
  else
    faceMatcher <- newFaceMatcher labeledFaceDescriptors THRESHOLD ;;
    processGroupImage faceMatcher group_img.

(** The body of the outer [try], lines 50-130. *)
Definition handlerTry (reqBody : JValue) : Eff Image Response :=
  dataset <- lift (getProp "req.body" "dataset" reqBody) ;;
  group_img <- lift (getProp "req.body" "group_img" reqBody) ;;
  if negb (toBoolean dataset) || negb (isArray dataset) then
    ret (json 400 (invalidDataset dataset))
  else if negb (toBoolean group_img) then
    ret (json 400 missingGroupImg)
  else
    failed <- try_catch
                (loadModels getAbsoluteModelPath ;;; ret None)
                (fun modelError => ret (Some (json 500 (modelsFailed modelError)))) ;;
    match failed with
    | Some response => ret response
    | None =>
        match dataset with
        | JArr entries => matchStage entries group_img
        | _ =>
            (* excluded by the [Array.isArray] test above *)
            throw (Error "dataset.map is not a function")
        end
    end.

(** The [POST /] handler, lines 48-138: the calls it makes and the
    response it sends. *)
Definition handler (reqBody : JValue) : list (Event Image) * Response :=
  let run := handlerTry reqBody in
  (trace run,
   match result run with
   | inl response => response
   | inr error => json 500 (internalError error)
   end).

(** ** Vocabulary of the properties *)


(** [data] can be destructured and has these [id] and [imglink]. *)
Definition entryOf (data id imglink : JValue) : Prop :=
  getProp "data" "id" data = inl id /\
  getProp "data" "imglink" data = inl imglink.

(** The callback, run on [data], fetches [imglink]. *)
Definition fetchesImage (data imglink : JValue) : Prop :=
  In (EvFetch imglink) (trace (processEntry data)).

(** The entries the reference processor is meant to drop: a missing or
    falsy field, an image whose fetch or decoding fails, an image without
    a face. *)
Inductive skipped (data : JValue) : Prop :=
| skipped_missing_field id imglink :
    entryOf data id imglink ->
    toBoolean id = false \/ toBoolean imglink = false ->
    skipped data
| skipped_image_failure id imglink e :
    entryOf data id imglink ->
    fetchesImage data imglink ->
    result (loadImage imglink) = inr e ->
    skipped data
| skipped_no_face id imglink img :
    entryOf data id imglink ->
    fetchesImage data imglink ->
    result (loadImage imglink) = inl img ->
    detectSingleFace W img = inl None ->
    skipped data.

(** The entries with truthy fields whose image is fetched, loads and shows
    a face with detection [d]. *)
Definition detectable (data id : JValue) (d : Detection) : Prop :=
  exists imglink img,
    entryOf data id imglink /\
    toBoolean id = true /\ toBoolean imglink = true /\
    fetchesImage data imglink /\
    result (loadImage imglink) = inl img /\
    detectSingleFace W img = inl (Some d).

(** [ld] is the labeled descriptor of [data]: its label is the id converted
    to a string and it holds the one descriptor found in the image. *)
Definition labels (data : JValue) (ld : LabeledFaceDescriptors) : Prop :=
  exists id d,
    detectable data id d /\
    toStringV (Number_toString W) id = Some (ld_label ld) /\
    descriptors ld = [descriptor d].

(** The request passed validation with this dataset and group image. *)
Definition validated (reqBody : JValue) (entries : list JValue)
    (group_img : JValue) : Prop :=
  getProp "req.body" "dataset" reqBody = inl (JArr entries) /\
  getProp "req.body" "group_img" reqBody = inl group_img /\
  toBoolean group_img = true.

(** The three models loaded. *)
Definition modelsLoaded : Prop :=
  exists loaded, result (loadModels getAbsoluteModelPath) = inl loaded.

(** The calls made on behalf of images: fetch, decoding, single-face
    detection. *)
Definition isImageCall (ev : Event Image) : bool :=
  match ev with
  | EvFetch _ | EvCanvasLoadImage _ | EvDetectSingleFace _ => true
  | _ => false
  end.


(** The convention of the external matcher: a best match whose distance
    exceeds the matcher's threshold is reported under the label
    "unknown". *)
Definition matcherConvention : Prop :=
  forall (faceMatcher : FaceMatcher) (query : Descriptor),
    PrimFloat.ltb (distanceThreshold faceMatcher)
                  (distance (findBestMatch W faceMatcher query)) = true ->
    label (findBestMatch W faceMatcher query) = "unknown".

(** The exits of the handler: the calls made and the response sent. *)
Inductive exits (reqBody : JValue) : list (Event Image) * Response -> Prop :=
| exit_undestructurable e :
    getProp "req.body" "dataset" reqBody = inr e ->
    exits reqBody ([], json 500 (internalError e))
| exit_invalid_dataset dataset group_img :
    getProp "req.body" "dataset" reqBody = inl dataset ->
    getProp "req.body" "group_img" reqBody = inl group_img ->
    isArray dataset = false ->
    exits reqBody ([], json 400 (invalidDataset dataset))
| exit_missing_group_img dataset group_img :
    getProp "req.body" "dataset" reqBody = inl dataset ->
    getProp "req.body" "group_img" reqBody = inl group_img ->
    isArray dataset = true ->
    toBoolean group_img = false ->
    exits reqBody ([], json 400 missingGroupImg)
| exit_models_failed entries group_img modelError :
    validated reqBody entries group_img ->
    result (loadModels getAbsoluteModelPath) = inr modelError ->
    exits reqBody (modelLoads, json 500 (modelsFailed modelError))
| exit_batch_rejected entries group_img error :
    validated reqBody entries group_img ->
    modelsLoaded ->
    result (loadLabeledImages entries) = inr error ->
    exits reqBody
      ((modelLoads ++ trace (loadLabeledImages entries))%list,
       json 500 (internalError error))
| exit_no_descriptors entries group_img :
    validated reqBody entries group_img ->
    modelsLoaded ->
    result (loadLabeledImages entries) = inl [] ->
    exits reqBody
      ((modelLoads ++ trace (loadLabeledImages entries))%list,
       json 400 noDescriptors)
| exit_group_stage entries group_img lds faceMatcher response :
    validated reqBody entries group_img ->
    modelsLoaded ->
    result (loadLabeledImages entries) = inl lds ->
    lds <> [] ->
    faceMatcher =
      {| labeledDescriptors := lds; distanceThreshold := THRESHOLD |} ->
    result (processGroupImage faceMatcher group_img) = inl response ->
    exits reqBody
      ((modelLoads ++ trace (loadLabeledImages entries)
        ++ EvNewFaceMatcher lds THRESHOLD
        :: trace (processGroupImage faceMatcher group_img))%list,
       response).

End Program.

(** ** A concrete world

    A small instance of [World] on which the program runs by computation:
    a handful of URLs, images named by a number, and a matcher that follows
    face-api.js (mean Euclidean distance per label, nearest label, "unknown"
    beyond the threshold). *)

Module Demo.

Definition Image : Type := nat.

Definition served (data : Buffer) : FetchResponse + JsError :=
  inl {| ok := true; statusText := "OK"; buffer := inl data |}.

Definition fetch (url : JValue) : FetchResponse + JsError :=
  match url with
  | JStr "https://x/alice.jpg" => served [x01]
  | JStr "https://x/bob.jpg" => served [x02]
  | JStr "https://x/blank.jpg" => served [x03]
  | JStr "https://x/group.jpg" => served [x10]
  | JStr "https://x/broken.jpg" => served [xff]
  | JStr "https://x/missing.jpg" =>
      inl {| ok := false; statusText := "Not Found"; buffer := inl [] |}
  | _ => inr (Error "Only absolute URLs are supported")
  end.

Definition canvas_loadImage (data : Buffer) : Image + JsError :=
  match data with
  | [x01] => inl 1
  | [x02] => inl 2
  | [x03] => inl 3
  | [x10] => inl 16
  | _ => inr (Error "Unsupported image type")
  end.

Definition face (d : Descriptor) : Detection := {| descriptor := d |}.

Definition detectSingleFace (img : Image) : option Detection + JsError :=
  match img with
  | 1 => inl (Some (face [0; 0]%float))
  | 2 => inl (Some (face [3; 4]%float))
  | 16 => inl (Some (face [0; 0]%float))
  | _ => inl None
  end.

Definition detectAllFaces (img : Image) : list Detection + JsError :=
  match img with
  | 1 => inl [face [0; 0]%float]
  | 2 => inl [face [3; 4]%float]
  | 16 => inl [face [0; 0.25]%float; face [30; 40]%float]
  | _ => inl []
  end.

Fixpoint squares (a b : Descriptor) : float :=
  match a, b with
  | x :: a', y :: b' => ((x - y) * (x - y) + squares a' b')%float
  | _, _ => 0%float
  end.

Definition euclideanDistance (a b : Descriptor) : float :=
  PrimFloat.sqrt (squares a b).

Fixpoint float_of_nat (n : nat) : float :=
  match n with
  | O => 0%float
  | S k => (1 + float_of_nat k)%float
  end.

Definition computeMeanDistance (query : Descriptor) (ds : list Descriptor)
  : float :=
  (fold_left (fun acc d => acc + euclideanDistance d query) ds 0
   / float_of_nat (Nat.max (length ds) 1))%float.

Definition candidate (query : Descriptor) (l : LabeledFaceDescriptors)
  : FaceMatch :=
  {| label := ld_label l;
     distance := computeMeanDistance query (descriptors l) |}.

Definition nearer (best curr : FaceMatch) : FaceMatch :=
  if PrimFloat.ltb (distance best) (distance curr) then best else curr.

Definition matchDescriptor (m : FaceMatcher) (query : Descriptor) : FaceMatch :=
  match map (candidate query) (labeledDescriptors m) with
  | [] => {| label := "unknown"; distance := PrimFloat.infinity |}
  | first :: others => fold_left nearer others first
  end.

Definition findBestMatch (m : FaceMatcher) (query : Descriptor) : FaceMatch :=
  let bestMatch := matchDescriptor m query in
  let unknown := {| label := "unknown"; distance := distance bestMatch |} in
  if PrimFloat.ltb (distanceThreshold m) (distance bestMatch) then unknown
  else if PrimFloat.ltb (distance bestMatch) (distanceThreshold m)
       then bestMatch
       else unknown.

Definition Number_toString (n : float) : string :=
  if PrimFloat.eqb n 7 then "7" else "0".

Definition path_join (a b : string) : string := a ++ "/" ++ b.

Definition loadFromDisk (net : Net) (path : string) : unit + JsError :=
  inl tt.

Definition world : World Image :=
  Build_World Number_toString "/srv/app" path_join fetch canvas_loadImage
    loadFromDisk detectSingleFace detectAllFaces findBestMatch.



Definition entry (id imglink : JValue) : JValue :=
  JObj [("id", id); ("imglink", imglink)].

Definition request (dataset group_img : JValue) : JValue :=
  JObj [("dataset", dataset); ("group_img", group_img)].

Definition alice : JValue := entry (JStr "alice") (JStr "https://x/alice.jpg").
Definition bob : JValue := entry (JStr "bob") (JStr "https://x/bob.jpg").

End Demo.

(** ** Properties *)

Section EffLemmas.

Context {Image : Type}.

Local Open Scope eff_scope.

Lemma eff_eq {A} (a b : Eff Image A) :
  trace a = trace b -> result a = result b -> a = b.
Proof. destruct a, b; simpl; congruence. Qed.

Lemma bind_throw {A B} (e : JsError) (k : A -> Eff Image B) :
  bind (throw e) k = throw e.
Proof. reflexivity. Qed.

Lemma try_catch_throw {A} (e : JsError) (h : JsError -> Eff Image A) :
  try_catch (throw e) h = h e.
Proof. unfold try_catch, throw. simpl. destruct (h e); reflexivity. Qed.

Lemma result_bind {A B} (m : Eff Image A) (k : A -> Eff Image B) :
  result (bind m k) =
  match result m with
  | inl a => result (k a)
  | inr e => inr e
  end.
Proof. unfold bind. destruct (result m); reflexivity. Qed.

Lemma trace_bind {A B} (m : Eff Image A) (k : A -> Eff Image B) :
  trace (bind m k) =
  match result m with
  | inl a => (trace m ++ trace (k a))%list
  | inr _ => trace m
  end.
Proof. unfold bind. destruct (result m); reflexivity. Qed.

Lemma bind_lift_inl {A B} (a : A) (k : A -> Eff Image B) :
  bind (lift (inl a)) k = k a.
Proof. unfold bind, lift. simpl. destruct (k a); reflexivity. Qed.

Lemma bind_ret {A B} (a : A) (k : A -> Eff Image B) :
  bind (ret a) k = k a.
Proof. apply bind_lift_inl. Qed.

Lemma result_try_catch {A} (m : Eff Image A) (h : JsError -> Eff Image A) :
  result (try_catch m h) =
  match result m with
  | inl a => inl a
  | inr e => result (h e)
  end.
Proof. unfold try_catch. destruct (result m); reflexivity. Qed.

Lemma trace_try_catch {A} (m : Eff Image A) (h : JsError -> Eff Image A) :
  trace (try_catch m h) =
  match result m with
  | inl _ => trace m
  | inr e => (trace m ++ trace (h e))%list
  end.
Proof. unfold try_catch. destruct (result m); reflexivity. Qed.

Lemma result_promise_all_cons {A} (p : Eff Image A) (ps : list (Eff Image A)) :
  result (promise_all (p :: ps)) =
  match result p, result (promise_all ps) with
  | inl a, inl l => inl (a :: l)
  | inr e, _ => inr e
  | inl _, inr e => inr e
  end.
Proof. reflexivity. Qed.

Lemma trace_promise_all_cons {A} (p : Eff Image A) (ps : list (Eff Image A)) :
  trace (promise_all (p :: ps)) = (trace p ++ trace (promise_all ps))%list.
Proof. reflexivity. Qed.


End EffLemmas.

Section HandlerStages.

Context {Image : Type}.
Variable W : World Image.

Local Open Scope eff_scope.

Lemma trace_loadModels :
  trace (loadModels W (getAbsoluteModelPath W)) = modelLoads W.
Proof. reflexivity. Qed.


(** A request whose body cannot be destructured, or fails validation,
    is answered without any call. *)
Lemma handler_invalid_dataset reqBody dataset group_img :
  getProp "req.body" "dataset" reqBody = inl dataset ->
  getProp "req.body" "group_img" reqBody = inl group_img ->
  isArray dataset = false ->
  handler W reqBody = ([], json 400 (invalidDataset dataset)).
Proof.
  intros Hd Hg Harr. unfold handler, handlerTry.
  rewrite Hd, Hg, !bind_lift_inl, Harr, orb_true_r. reflexivity.
Qed.

Lemma handler_missing_group_img reqBody dataset group_img :
  getProp "req.body" "dataset" reqBody = inl dataset ->
  getProp "req.body" "group_img" reqBody = inl group_img ->
  isArray dataset = true ->
  toBoolean group_img = false ->
  handler W reqBody = ([], json 400 missingGroupImg).
Proof.
  intros Hd Hg Harr Hfalsy. unfold handler, handlerTry.
  rewrite Hd, Hg, !bind_lift_inl, Harr, Hfalsy.
  destruct dataset; try discriminate. reflexivity.
Qed.

(** The response sent for an outcome of the outer [try]. *)
Lemma handler_unfold reqBody :
  handler W reqBody =
  (trace (handlerTry W reqBody),
   match result (handlerTry W reqBody) with
   | inl response => response
   | inr error => json 500 (internalError error)
   end).
Proof. reflexivity. Qed.

Lemma handler_undestructurable reqBody e :
  getProp "req.body" "dataset" reqBody = inr e ->
  handler W reqBody = ([], json 500 (internalError e)).
Proof.
  intros Hd. unfold handler, handlerTry. rewrite Hd. reflexivity.
Qed.

(** What remains of the handler once validation has passed. *)
Lemma handlerTry_validated reqBody entries group_img :
  getProp "req.body" "dataset" reqBody = inl (JArr entries) ->
  getProp "req.body" "group_img" reqBody = inl group_img ->
  toBoolean group_img = true ->
  handlerTry W reqBody =
  (failed <- try_catch
               (loadModels W (getAbsoluteModelPath W) ;;; ret None)
               (fun modelError =>
                  ret (Some (json 500 (modelsFailed modelError)))) ;;
   match failed with
   | Some response => ret response
   | None => matchStage W entries group_img
   end).
Proof.
  intros Hd Hg Htruthy. unfold handlerTry.
  rewrite Hd, Hg, !bind_lift_inl, Htruthy. reflexivity.
Qed.

Lemma handler_models_failed reqBody entries group_img modelError :
  getProp "req.body" "dataset" reqBody = inl (JArr entries) ->
  getProp "req.body" "group_img" reqBody = inl group_img ->
  toBoolean group_img = true ->
  result (loadModels W (getAbsoluteModelPath W)) = inr modelError ->
  handler W reqBody = (modelLoads W, json 500 (modelsFailed modelError)).
Proof.
  intros Hd Hg Htruthy Hm. rewrite handler_unfold.
  rewrite (handlerTry_validated _ Hd Hg Htruthy).
  rewrite trace_bind, result_bind, result_try_catch, trace_try_catch.
  rewrite result_bind, trace_bind, Hm. reflexivity.
Qed.

Lemma handler_models_loaded reqBody entries group_img loaded :
  getProp "req.body" "dataset" reqBody = inl (JArr entries) ->
  getProp "req.body" "group_img" reqBody = inl group_img ->
  toBoolean group_img = true ->
  result (loadModels W (getAbsoluteModelPath W)) = inl loaded ->
  handler W reqBody =
  ((modelLoads W ++ trace (matchStage W entries group_img))%list,
   match result (matchStage W entries group_img) with
   | inl response => response
   | inr error => json 500 (internalError error)
   end).
Proof.
  intros Hd Hg Htruthy Hm. rewrite handler_unfold.
  rewrite (handlerTry_validated _ Hd Hg Htruthy).
  rewrite trace_bind, result_bind, result_try_catch, trace_try_catch.
  rewrite result_bind, trace_bind, Hm. reflexivity.
Qed.

(** The three exits of [matchStage]. *)
Lemma matchStage_rejected entries group_img e :
  result (loadLabeledImages W entries) = inr e ->
  matchStage W entries group_img = (trace (loadLabeledImages W entries), inr e).
Proof.
  intros H. unfold matchStage. apply eff_eq.
  - rewrite trace_bind, H. reflexivity.
  - rewrite result_bind, H. reflexivity.
Qed.

Lemma matchStage_empty entries group_img :
  result (loadLabeledImages W entries) = inl [] ->
  matchStage W entries group_img =
  (trace (loadLabeledImages W entries), inl (json 400 noDescriptors)).
Proof.
  intros H. unfold matchStage. apply eff_eq.
  - rewrite trace_bind, H. simpl. apply app_nil_r.
  - rewrite result_bind, H. reflexivity.
Qed.

Lemma matchStage_matcher entries group_img lds :
  result (loadLabeledImages W entries) = inl lds ->
  lds <> [] ->
  let faceMatcher :=
    {| labeledDescriptors := lds; distanceThreshold := THRESHOLD |} in
  matchStage W entries group_img =
  ((trace (loadLabeledImages W entries)
    ++ EvNewFaceMatcher lds THRESHOLD
    :: trace (processGroupImage W faceMatcher group_img))%list,
   result (processGroupImage W faceMatcher group_img)).
Proof.
  intros H Hne faceMatcher. unfold matchStage. apply eff_eq.
  - rewrite trace_bind, H. destruct lds; [contradiction|]. reflexivity.
  - rewrite result_bind, H. destruct lds; [contradiction|]. reflexivity.
Qed.

(** The three exits of [processGroupImage]. *)
Lemma processGroupImage_not_loaded faceMatcher group_img e :
  result (loadImage W group_img) = inr e ->
  processGroupImage W faceMatcher group_img =
  (trace (loadImage W group_img), inl (json 500 (groupImageFailed e))).
Proof.
  intros H. unfold processGroupImage. apply eff_eq.
  - rewrite trace_try_catch, result_bind, trace_bind, H. simpl. apply app_nil_r.
  - rewrite result_try_catch, result_bind, H. reflexivity.
Qed.

Lemma processGroupImage_not_detected faceMatcher group_img image e :
  result (loadImage W group_img) = inl image ->
  detectAllFaces W image = inr e ->
  processGroupImage W faceMatcher group_img =
  ((trace (loadImage W group_img) ++ [EvDetectAllFaces image])%list,
   inl (json 500 (groupImageFailed e))).
Proof.
  intros H Hd. unfold processGroupImage. apply eff_eq.
  - rewrite trace_try_catch, result_bind, trace_bind, H.
    rewrite result_bind, trace_bind. unfold call at 1 3. simpl.
    rewrite Hd. simpl. now rewrite app_nil_r.
  - rewrite result_try_catch, result_bind, H, result_bind.
    unfold call at 1. simpl. rewrite Hd. reflexivity.
Qed.

Lemma processGroupImage_detected faceMatcher group_img image detections :
  result (loadImage W group_img) = inl image ->
  detectAllFaces W image = inl detections ->
  processGroupImage W faceMatcher group_img =
  ((trace (loadImage W group_img)
    ++ EvDetectAllFaces image
    :: map (fun d => EvFindBestMatch faceMatcher (descriptor d)) detections)%list,
   inl (json 200
          (success
             (map (fun d => findBestMatch W faceMatcher (descriptor d))
                  detections)))).
Proof.
  intros H Hd. unfold processGroupImage. apply eff_eq.
  - rewrite trace_try_catch, result_bind, trace_bind, H.
    rewrite result_bind, trace_bind. unfold call at 1 3. simpl.
    rewrite Hd. simpl. now rewrite app_nil_r.
  - rewrite result_try_catch, result_bind, H, result_bind.
    unfold call at 1. simpl. rewrite Hd. reflexivity.
Qed.

End HandlerStages.

Section ReferenceProcessor.

Context {Image : Type}.
Variable W : World Image.

Local Open Scope eff_scope.

Lemma getProp_nullish src key key' v e :
  getProp src key v = inr e -> exists e', getProp src key' v = inr e'.
Proof. destruct v; simpl; try discriminate; eauto. Qed.

Lemma callToString_printable name id s :
  toBoolean id = true ->
  toStringV (Number_toString W) id = Some s ->
  callToString (Number_toString W) name id = inl s.
Proof.
  intros Ht Hs. destruct id; try discriminate Ht;
    try (unfold callToString; rewrite Hs; reflexivity).
  simpl in *. destruct (hasOwn "toString" properties); congruence.
Qed.

(** An entry that is [undefined] or [null] rejects at the destructuring. *)
Lemma processEntry_nullish data e :
  getProp "data" "id" data = inr e ->
  processEntry W data = ([], inr e).
Proof. intros H. unfold processEntry. rewrite H. reflexivity. Qed.

Lemma processEntry_invalid data id imglink :
  getProp "data" "id" data = inl id ->
  getProp "data" "imglink" data = inl imglink ->
  toBoolean id = false \/ toBoolean imglink = false ->
  processEntry W data = ([], inl None).
Proof.
  intros Hi Hl Hf. unfold processEntry. rewrite Hi, Hl, !bind_lift_inl.
  destruct Hf as [-> | ->]; [|rewrite orb_true_r]; reflexivity.
Qed.

(** An id whose conversion to a string throws escapes the [catch], whose
    logging line converts it again. *)
Lemma processEntry_unprintable data id imglink :
  getProp "data" "id" data = inl id ->
  getProp "data" "imglink" data = inl imglink ->
  toBoolean id = true ->
  toBoolean imglink = true ->
  toStringV (Number_toString W) id = None ->
  processEntry W data = ([], inr unprintable).
Proof.
  intros Hi Hl Ht Ht' Hs. unfold processEntry.
  rewrite Hi, Hl, !bind_lift_inl, Ht, Ht'. simpl.
  assert (Htpl : template W id = throw unprintable)
    by (unfold template; now rewrite Hs).
  rewrite !Htpl, bind_throw, try_catch_throw. apply bind_throw.
Qed.

Lemma processEntry_printable data id imglink s :
  getProp "data" "id" data = inl id ->
  getProp "data" "imglink" data = inl imglink ->
  toBoolean id = true ->
  toBoolean imglink = true ->
  toStringV (Number_toString W) id = Some s ->
  processEntry W data =
  ((trace (loadImage W imglink)
    ++ match result (loadImage W imglink) with
       | inl img => [EvDetectSingleFace img]
       | inr _ => []
       end)%list,
   inl (outcome W s (result (loadImage W imglink)))).
Proof.
  intros Hi Hl Ht Ht' Hs. unfold processEntry.
  rewrite Hi, Hl, !bind_lift_inl, Ht, Ht'. simpl.
  assert (Htpl : template W id = ret s) by (unfold template; now rewrite Hs).
  rewrite !Htpl, !bind_ret. apply eff_eq.
  - rewrite trace_try_catch, !result_bind, !trace_bind.
    destruct (result (loadImage W imglink)) as [img|e]; simpl;
      [|now rewrite app_nil_r].
    rewrite result_bind, trace_bind. unfold call at 1 2 3; simpl.
    destruct (detectSingleFace W img) as [[d|]|e]; simpl;
      [| reflexivity | now rewrite app_nil_r].
    rewrite (callToString_printable "id" _ Ht Hs), bind_lift_inl.
    reflexivity.
  - rewrite result_try_catch, !result_bind.
    destruct (result (loadImage W imglink)) as [img|e]; simpl; [|reflexivity].
    rewrite result_bind. unfold call at 1; simpl.
    destruct (detectSingleFace W img) as [[d|]|e]; simpl; try reflexivity.
    rewrite (callToString_printable "id" _ Ht Hs), bind_lift_inl.
    reflexivity.
Qed.

End ReferenceProcessor.

Section ReferenceBatch.

Context {Image : Type}.
Variable W : World Image.

Lemma result_loadLabeledImages entries :
  result (loadLabeledImages W entries) =
  match result (promise_all (map (processEntry W) entries)) with
  | inl l => inl (filterNotNull l)
  | inr e => inr e
  end.
Proof.
  unfold loadLabeledImages. rewrite result_bind.
  destruct (result (promise_all _)); reflexivity.
Qed.

Lemma trace_loadLabeledImages entries :
  trace (loadLabeledImages W entries) =
  trace (promise_all (map (processEntry W) entries)).
Proof.
  unfold loadLabeledImages. rewrite trace_bind.
  destruct (result (promise_all _)); [apply app_nil_r | reflexivity].
Qed.

(** An entry whose callback resolves to [null] leaves the batch as it is
    without that entry. *)
Lemma null_entry_is_dropped before data after :
  result (processEntry W data) = inl None ->
  result (loadLabeledImages W (before ++ data :: after)) =
  result (loadLabeledImages W (before ++ after)).
Proof.
  intros Hnull. rewrite !result_loadLabeledImages.
  induction before as [|x before IH]; simpl map.
  - rewrite result_promise_all_cons, Hnull.
    destruct (result (promise_all _)); reflexivity.
  - rewrite !result_promise_all_cons.
    destruct (result (processEntry W x)) as [[ld|]|e]; [| |reflexivity].
    + destruct (result (promise_all (map _ (before ++ data :: after))));
        destruct (result (promise_all (map _ (before ++ after))));
        simpl in *; congruence.
    + destruct (result (promise_all (map _ (before ++ data :: after))));
        destruct (result (promise_all (map _ (before ++ after))));
        simpl in *; congruence.
Qed.

(** A rejecting callback rejects the batch. *)
Lemma rejecting_entry_rejects_batch entries data e :
  In data entries ->
  result (processEntry W data) = inr e ->
  exists e', result (loadLabeledImages W entries) = inr e'.
Proof.
  intros Hin Hrej. rewrite result_loadLabeledImages.
  induction entries as [|x entries IH]; [contradiction|].
  simpl map. rewrite result_promise_all_cons.
  destruct Hin as [->|Hin].
  - rewrite Hrej. eauto.
  - destruct (IH Hin) as [e' He'].
    destruct (result (promise_all _)); [discriminate|].
    destruct (result (processEntry W x)); eauto.
Qed.

(** The fetch is only reached with truthy fields and an id that the
    logging line before it could convert. *)
Lemma fetchesImage_printable data id imglink url :
  entryOf data id imglink ->
  fetchesImage W data url ->
  toBoolean id = true /\ toBoolean imglink = true /\
  exists s, toStringV (Number_toString W) id = Some s.
Proof.
  intros [Hi Hl] Hin. unfold fetchesImage in Hin.
  destruct (toBoolean id) eqn:Ht.
  2: { rewrite (processEntry_invalid W _ Hi Hl) in Hin by now left.
       contradiction. }
  destruct (toBoolean imglink) eqn:Ht'.
  2: { rewrite (processEntry_invalid W _ Hi Hl) in Hin by now right.
       contradiction. }
  destruct (toStringV (Number_toString W) id) as [s|] eqn:Hs.
  2: { rewrite (processEntry_unprintable W _ Hi Hl Ht Ht' Hs) in Hin.
       contradiction. }
  eauto.
Qed.

Lemma skipped_resolves_null data :
  skipped W data -> result (processEntry W data) = inl None.
Proof.
  intros [id imglink [Hi Hl] Hf | id imglink e He Hfetch Hload
          | id imglink img He Hfetch Hload Hface].
  - now rewrite (processEntry_invalid W _ Hi Hl Hf).
  - destruct (@fetchesImage_printable _ _ _ _ He Hfetch) as (Ht & Ht' & s & Hs).
    destruct He as [Hi Hl].
    rewrite (processEntry_printable W _ Hi Hl Ht Ht' Hs), Hload. reflexivity.
  - destruct (@fetchesImage_printable _ _ _ _ He Hfetch) as (Ht & Ht' & s & Hs).
    destruct He as [Hi Hl].
    rewrite (processEntry_printable W _ Hi Hl Ht Ht' Hs), Hload.
    unfold result, outcome; simpl. now rewrite Hface.
Qed.


(** C2. An entry whose [id] or [imglink] is missing or falsy, whose image
    fetch or decoding fails, or in whose image no face is detected,
    resolves to the [null] placeholder, and the reference processor returns
    what it returns for the dataset without that entry: labeled descriptors
    of the other entries, or their rejection, never one caused by it. *)
Theorem C2_skipped_entry_is_isolated before data after :
  skipped W data ->
  result (processEntry W data) = inl None /\
  result (loadLabeledImages W (before ++ data :: after)) =
  result (loadLabeledImages W (before ++ after)).
Proof.
  intros Hskip. pose proof (@skipped_resolves_null _ Hskip) as Hnull.
  split; [exact Hnull | now apply null_entry_is_dropped].
Qed.


End ReferenceBatch.

Section HandlerExits.

Context {Image : Type}.
Variable W : World Image.

(** The group-image stage always ends in a response, in one of three
    ways. *)
Lemma processGroupImage_cases faceMatcher group_img :
  (exists e,
      result (loadImage W group_img) = inr e /\
      processGroupImage W faceMatcher group_img =
      (trace (loadImage W group_img), inl (json 500 (groupImageFailed e))))
  \/ (exists image e,
      result (loadImage W group_img) = inl image /\
      detectAllFaces W image = inr e /\
      processGroupImage W faceMatcher group_img =
      ((trace (loadImage W group_img) ++ [EvDetectAllFaces image])%list,
       inl (json 500 (groupImageFailed e))))
  \/ (exists image detections,
      result (loadImage W group_img) = inl image /\
      detectAllFaces W image = inl detections /\
      processGroupImage W faceMatcher group_img =
      ((trace (loadImage W group_img)
        ++ EvDetectAllFaces image
        :: map (fun d => EvFindBestMatch faceMatcher (descriptor d))
               detections)%list,
       inl (json 200
              (success
                 (map (fun d => findBestMatch W faceMatcher (descriptor d))
                      detections))))).
Proof.
  destruct (result (loadImage W group_img)) as [image|e] eqn:Hload.
  - destruct (detectAllFaces W image) as [detections|e] eqn:Hdet.
    + right; right. exists image, detections.
      repeat split; trivial. now apply processGroupImage_detected.
    + right; left. exists image, e.
      repeat split; trivial. now apply processGroupImage_not_detected.
  - left. exists e. split; trivial. now apply processGroupImage_not_loaded.
Qed.

Lemma processGroupImage_responds faceMatcher group_img :
  exists response,
    result (processGroupImage W faceMatcher group_img) = inl response /\
    (status response = 200 \/ status response = 500).
Proof.
  destruct (processGroupImage_cases faceMatcher group_img)
    as [(e & _ & ->) | [(image & e & _ & _ & ->)
                       | (image & detections & _ & _ & ->)]];
    eexists; (split; [reflexivity|]); simpl; auto.
Qed.

(** Every run of the handler leaves by one of its exits. *)
Lemma handler_exits reqBody : exits W reqBody (handler W reqBody).
Proof.
  destruct (getProp "req.body" "dataset" reqBody) as [dataset|e] eqn:Hd.
  2: { rewrite (handler_undestructurable W _ Hd). now constructor. }
  destruct (getProp "req.body" "group_img" reqBody) as [group_img|e] eqn:Hg.
  2: { destruct (@getProp_nullish _ _ "dataset" _ _ Hg) as [e' He']. congruence. }
  destruct (isArray dataset) eqn:Harr.
  2: { rewrite (handler_invalid_dataset W _ Hd Hg Harr).
       now apply exit_invalid_dataset with group_img. }
  destruct (toBoolean group_img) eqn:Htruthy.
  2: { rewrite (handler_missing_group_img W _ Hd Hg Harr Htruthy).
       now apply exit_missing_group_img with dataset group_img. }
  destruct dataset as [| | | | |entries|]; try discriminate Harr.
  assert (Hv : validated reqBody entries group_img) by now repeat split.
  destruct (result (loadModels W (getAbsoluteModelPath W)))
    as [loaded|modelError] eqn:Hm.
  2: { rewrite (handler_models_failed W _ Hd Hg Htruthy Hm).
       now apply exit_models_failed with entries group_img. }
  assert (Hl : modelsLoaded W) by now exists loaded.
  rewrite (handler_models_loaded W _ Hd Hg Htruthy Hm).
  destruct (result (loadLabeledImages W entries)) as [lds|error] eqn:Hlds.
  2: { rewrite (matchStage_rejected W _ group_img Hlds). simpl.
       now apply exit_batch_rejected with group_img. }
  destruct lds as [|ld lds].
  { rewrite (matchStage_empty W _ group_img Hlds). simpl.
    now apply exit_no_descriptors with group_img. }
  rewrite (matchStage_matcher W _ group_img Hlds) by discriminate.
  destruct (processGroupImage_responds
              {| labeledDescriptors := ld :: lds;
                 distanceThreshold := THRESHOLD |} group_img)
    as (response & Hresp & _).
  unfold trace at 1, result at 1. simpl fst. simpl snd. rewrite Hresp.
  eapply exit_group_stage; eauto. discriminate.
Qed.

(** Which calls each stage makes. *)
Lemma loadImage_calls url ev :
  In ev (trace (loadImage W url)) -> isImageCall ev = true.
Proof.
  unfold loadImage. rewrite trace_try_catch, result_bind, !trace_bind.
  unfold call at 1 2 3 4 5. simpl.
  destruct (fetch W url) as [response|e]; simpl.
  2: { intros [<-|[]]; reflexivity. }
  destruct (negb (ok response)); simpl.
  { intros [<-|[]]; reflexivity. }
  rewrite result_bind. destruct (buffer response) as [b|e]; simpl.
  2: { intros [<-|[]]; reflexivity. }
  destruct (canvas_loadImage W b); simpl; intros [<-|[<-|[]]]; reflexivity.
Qed.

Lemma processEntry_calls data ev :
  In ev (trace (processEntry W data)) -> isImageCall ev = true.
Proof.
  destruct (getProp "data" "id" data) as [id|e] eqn:Hi.
  2: { rewrite (processEntry_nullish W _ Hi). contradiction. }
  destruct (getProp "data" "imglink" data) as [imglink|e] eqn:Hl.
  2: { destruct (@getProp_nullish _ _ "id" _ _ Hl) as [e' He']. congruence. }
  destruct (toBoolean id) eqn:Ht.
  2: { rewrite (processEntry_invalid W _ Hi Hl) by now left. contradiction. }
  destruct (toBoolean imglink) eqn:Ht'.
  2: { rewrite (processEntry_invalid W _ Hi Hl) by now right. contradiction. }
  destruct (toStringV (Number_toString W) id) as [s|] eqn:Hs.
  2: { rewrite (processEntry_unprintable W _ Hi Hl Ht Ht' Hs). contradiction. }
  rewrite (processEntry_printable W _ Hi Hl Ht Ht' Hs).
  unfold trace at 1. simpl fst. rewrite in_app_iff. intros [Hin|Hin].
  - now apply loadImage_calls with imglink.
  - destruct (result (loadImage W imglink)); [|contradiction].
    destruct Hin as [<-|[]]. reflexivity.
Qed.

Lemma loadLabeledImages_calls entries ev :
  In ev (trace (loadLabeledImages W entries)) -> isImageCall ev = true.
Proof.
  rewrite trace_loadLabeledImages.
  induction entries as [|data entries IH]; [contradiction|].
  simpl map. rewrite trace_promise_all_cons, in_app_iff.
  intros [Hin|Hin]; [now apply processEntry_calls with data | now apply IH].
Qed.

End HandlerExits.

Section HandlerClaims.

Context {Image : Type}.
Variable W : World Image.

(** C1. A request that reaches the group image with a non-empty
    labeled-descriptor set, whose group image loads and decodes and in
    which the detector finds the faces [detections], is answered 200 with
    [{success: true, matches}]: [matches] has one entry per detected face,
    in the detector's order, and entry [i] is the [{label, distance}] of
    the matcher's best match for the descriptor of face [i]. *)
Theorem C1_one_match_per_detected_face
    reqBody entries group_img lds image detections :
  validated reqBody entries group_img ->
  modelsLoaded W ->
  result (loadLabeledImages W entries) = inl lds ->
  lds <> [] ->
  result (loadImage W group_img) = inl image ->
  detectAllFaces W image = inl detections ->
  let faceMatcher :=
    {| labeledDescriptors := lds; distanceThreshold := THRESHOLD |} in
  exists matches,
    snd (handler W reqBody) =
    json 200 (JObj [("success", JBool true); ("matches", JArr matches)]) /\
    length matches = length detections /\
    forall i d,
      nth_error detections i = Some d ->
      nth_error matches i =
      Some (JObj [("label",
                   JStr (label (findBestMatch W faceMatcher (descriptor d))));
                  ("distance",
                   JNum (distance (findBestMatch W faceMatcher (descriptor d))))]).
Proof.
  intros (Hd & Hg & Htruthy) [loaded Hm] Hlds Hne Hload Hdet faceMatcher.
  exists (map matchEntry
              (map (fun d => findBestMatch W faceMatcher (descriptor d))
                   detections)).
  split; [|split].
  - rewrite (handler_models_loaded W _ Hd Hg Htruthy Hm).
    rewrite (matchStage_matcher W _ group_img Hlds Hne).
    rewrite (processGroupImage_detected W _ _ Hload Hdet). reflexivity.
  - now rewrite !length_map.
  - intros i d Hi. rewrite map_map.
    now rewrite (map_nth_error _ _ _ Hi).
Qed.

(** C4. A body whose [dataset] is absent or not an array is answered 400
    with [{error: "Invalid dataset format", received: dataset}]; a body
    with an array [dataset] and a falsy or absent [group_img] is answered
    400 with [{error: "Missing group_img"}]. *)
Theorem C4_validation_responses reqBody dataset group_img :
  getProp "req.body" "dataset" reqBody = inl dataset ->
  getProp "req.body" "group_img" reqBody = inl group_img ->
  (isArray dataset = false ->
   snd (handler W reqBody) =
   json 400 (JObj [("error", JStr "Invalid dataset format");
                   ("received", dataset)])) /\
  (isArray dataset = true ->
   toBoolean group_img = false ->
   snd (handler W reqBody) =
   json 400 (JObj [("error", JStr "Missing group_img")])).
Proof.
  intros Hd Hg. split.
  - intros Harr. now rewrite (handler_invalid_dataset W _ Hd Hg Harr).
  - intros Harr Hf. now rewrite (handler_missing_group_img W _ Hd Hg Harr Hf).
Qed.

(** C5. When a validated request's reference processor returns no labeled
    descriptor, the response is 400 with the error "No valid face
    descriptors could be generated from the dataset"; the calls made are
    those of model loading and of the reference processor and nothing
    more: no matcher is constructed, no group image is fetched or searched
    for faces.  The empty dataset is such a request. *)
Theorem C5_no_descriptors_stops_the_request reqBody entries group_img :
  validated reqBody entries group_img ->
  modelsLoaded W ->
  result (loadLabeledImages W entries) = inl [] ->
  handler W reqBody =
  ((modelLoads W ++ trace (loadLabeledImages W entries))%list,
   json 400
     (JObj [("error",
             JStr "No valid face descriptors could be generated from the dataset")]))
  /\ (forall ev,
         In ev (fst (handler W reqBody)) ->
         match ev with
         | EvNewFaceMatcher _ _ | EvDetectAllFaces _ | EvFindBestMatch _ _ =>
             False
         | _ => True
         end)
  /\ loadLabeledImages W [] = ([], inl []).
Proof.
  intros (Hd & Hg & Htruthy) [loaded Hm] Hlds.
  assert (Hrun : handler W reqBody =
                 ((modelLoads W ++ trace (loadLabeledImages W entries))%list,
                  json 400 noDescriptors)).
  { rewrite (handler_models_loaded W _ Hd Hg Htruthy Hm).
    now rewrite (matchStage_empty W _ group_img Hlds). }
  split; [exact Hrun|]. split; [|reflexivity].
  intros ev. rewrite Hrun. cbn [fst]. rewrite in_app_iff. intros [Hin|Hin].
  - simpl in Hin. destruct Hin as [<-|[<-|[<-|[]]]]; exact I.
  - apply loadLabeledImages_calls in Hin. destruct ev; now try discriminate.
Qed.

(** C6. When the fetch of a URL answers with a non-successful status,
    [loadImage] throws an error whose message is "Failed to fetch image: "
    followed by the status text, and returns no image; when that URL is
    the group image of a request that reached the group-image stage, the
    response is 500 with [{error: "Failed to process group image",
    message}] and that same message. *)
Theorem C6_unsuccessful_fetch_is_reported url response :
  fetch W url = inl response ->
  ok response = false ->
  loadImage W url =
  ([EvFetch url],
   inr (Error ("Failed to fetch image: " ++ statusText response))) /\
  forall reqBody entries lds,
    validated reqBody entries url ->
    modelsLoaded W ->
    result (loadLabeledImages W entries) = inl lds ->
    lds <> [] ->
    snd (handler W reqBody) =
    json 500
      (JObj [("error", JStr "Failed to process group image");
             ("message",
              JStr ("Failed to fetch image: " ++ statusText response))]).
Proof.
  intros Hfetch Hok.
  assert (Hload : loadImage W url =
                  ([EvFetch url],
                   inr (Error ("Failed to fetch image: "
                               ++ statusText response)))).
  { unfold loadImage, try_catch, bind, call, throw, result, trace. simpl.
    rewrite Hfetch. simpl. rewrite Hok. reflexivity. }
  split; [exact Hload|].
  intros reqBody entries lds (Hd & Hg & Htruthy) [loaded Hm] Hlds Hne.
  rewrite (handler_models_loaded W _ Hd Hg Htruthy Hm).
  rewrite (matchStage_matcher W _ url Hlds Hne).
  erewrite processGroupImage_not_loaded by (rewrite Hload; reflexivity).
  reflexivity.
Qed.


(** C8. Every [findBestMatch] call of the handler is made on the matcher
    constructed from the labeled descriptors that the reference processor
    returned and the threshold 0.6, and its result is one of the matches of
    the 200 response; so, under the external matcher's convention, a face
    whose best-match distance exceeds 0.6 is labeled "unknown". *)
Theorem C8_matcher_built_from_survivors reqBody matcher query :
  In (EvFindBestMatch matcher query) (fst (handler W reqBody)) ->
  (exists entries group_img lds,
      validated reqBody entries group_img /\
      result (loadLabeledImages W entries) = inl lds /\
      In (EvNewFaceMatcher lds THRESHOLD) (fst (handler W reqBody)) /\
      matcher =
      {| labeledDescriptors := lds; distanceThreshold := THRESHOLD |}) /\
  (exists results,
      snd (handler W reqBody) = json 200 (success results) /\
      In (findBestMatch W matcher query) results) /\
  (matcherConvention W ->
   PrimFloat.ltb THRESHOLD (distance (findBestMatch W matcher query)) = true ->
   label (findBestMatch W matcher query) = "unknown").
Proof.
  intros Hin. pose proof (handler_exits W reqBody) as Hexit.
  destruct Hexit
    as [e _ | dataset group_img _ _ _ | dataset group_img _ _ _ _
        | entries group_img modelError _ _
        | entries group_img error _ _ _
        | entries group_img _ _ _
        | entries group_img lds faceMatcher response Hv Hl Hlds Hne
            HfaceMatcher Hresp];
    cbn [fst snd] in *; try contradiction.
  - simpl in Hin. destruct Hin as [Hin|[Hin|[Hin|[]]]]; discriminate Hin.
  - apply in_app_iff in Hin. destruct Hin as [Hin|Hin].
    + simpl in Hin. destruct Hin as [Hin|[Hin|[Hin|[]]]]; discriminate Hin.
    + apply loadLabeledImages_calls in Hin. discriminate Hin.
  - apply in_app_iff in Hin. destruct Hin as [Hin|Hin].
    + simpl in Hin. destruct Hin as [Hin|[Hin|[Hin|[]]]]; discriminate Hin.
    + apply loadLabeledImages_calls in Hin. discriminate Hin.
  - assert (Hquery :
      In (EvFindBestMatch matcher query)
         (trace (processGroupImage W faceMatcher group_img))).
    { apply in_app_iff in Hin. destruct Hin as [Hin|Hin].
      { simpl in Hin. destruct Hin as [Hin|[Hin|[Hin|[]]]]; discriminate Hin. }
      apply in_app_iff in Hin. destruct Hin as [Hin|[Hin|Hin]].
      - apply loadLabeledImages_calls in Hin. discriminate Hin.
      - discriminate Hin.
      - exact Hin. }
    destruct (processGroupImage_cases W faceMatcher group_img)
      as [(e & _ & Hrun) | [(image & e & _ & _ & Hrun)
                           | (image & detections & _ & _ & Hrun)]];
      rewrite Hrun in Hquery, Hresp; cbn [trace result fst snd] in *.
    + apply loadImage_calls in Hquery. discriminate Hquery.
    + apply in_app_iff in Hquery. destruct Hquery as [Hq|[Hq|[]]].
      * apply loadImage_calls in Hq. discriminate Hq.
      * discriminate Hq.
    + apply in_app_iff in Hquery. destruct Hquery as [Hq|[Hq|Hq]].
      * apply loadImage_calls in Hq. discriminate Hq.
      * discriminate Hq.
      * apply in_map_iff in Hq. destruct Hq as (d & Hd & Hdin).
        injection Hd as <- <-. injection Hresp as <-.
        split; [|split].
        -- exists entries, group_img, lds.
           split; [exact Hv|]. split; [exact Hlds|].
           split; [|exact HfaceMatcher].
           apply in_or_app. right. apply in_or_app. right. now left.
        -- eexists. split; [reflexivity|].
           apply in_map_iff. now exists d.
        -- intros Hconv Hfar. apply Hconv. subst faceMatcher. exact Hfar.
Qed.


(** C10. The dataset check comes first: a body whose [dataset] is not an
    array is answered 400 "Invalid dataset format" whatever [group_img]
    is, in particular when it is falsy too; and whenever the response is
    one of the two 400 validation responses, the handler has made no call
    at all: no model load, no fetch. *)
Theorem C10_validation_comes_first reqBody :
  (forall dataset group_img,
      getProp "req.body" "dataset" reqBody = inl dataset ->
      getProp "req.body" "group_img" reqBody = inl group_img ->
      isArray dataset = false ->
      handler W reqBody =
      ([], json 400 (JObj [("error", JStr "Invalid dataset format");
                           ("received", dataset)]))) /\
  (forall received,
      snd (handler W reqBody) = json 400 (invalidDataset received) \/
      snd (handler W reqBody) = json 400 missingGroupImg ->
      fst (handler W reqBody) = []).
Proof.
  split.
  - intros dataset group_img Hd Hg Harr.
    now rewrite (handler_invalid_dataset W _ Hd Hg Harr).
  - intros received Hresp. pose proof (handler_exits W reqBody) as Hexit.
    destruct Hexit
      as [e _ | dataset group_img _ _ _ | dataset group_img _ _ _ _
          | entries group_img modelError _ _
          | entries group_img error _ _ _
          | entries group_img _ _ _
          | entries group_img lds faceMatcher response _ _ _ _ _ Hr];
      cbn [fst snd] in *; try reflexivity;
      try (destruct Hresp as [Hresp|Hresp]; discriminate Hresp).
    destruct (processGroupImage_responds W faceMatcher group_img)
      as (response' & Hr' & Hstatus).
    rewrite Hr in Hr'. injection Hr' as <-.
    destruct Hresp as [-> | ->]; simpl in Hstatus;
      destruct Hstatus; discriminate.
Qed.

End HandlerClaims.

(** ** The properties on the concrete world *)

Lemma demo_models_loaded : modelsLoaded Demo.world.
Proof. exists [tt; tt; tt]. reflexivity. Qed.

(** The demo matcher follows the convention of face-api.js. *)
Lemma demo_matcher_convention : matcherConvention Demo.world.
Proof.
  intros faceMatcher query. simpl. unfold Demo.findBestMatch.
  destruct (PrimFloat.ltb (distanceThreshold faceMatcher)
              (distance (Demo.matchDescriptor faceMatcher query))) eqn:Hfar;
    [reflexivity|].
  destruct (PrimFloat.ltb (distance (Demo.matchDescriptor faceMatcher query))
              (distanceThreshold faceMatcher));
    simpl; [congruence | reflexivity].
Qed.

(** The end-to-end scenario: one reference, and a group image whose first
    face is within the threshold of it and whose second face is not. *)
Example scenario_alice :
  snd (handler Demo.world
         (Demo.request (JArr [Demo.alice]) (JStr "https://x/group.jpg"))) =
  json 200
    (JObj [("success", JBool true);
           ("matches",
            JArr [JObj [("label", JStr "alice"); ("distance", JNum 0.25)];
                  JObj [("label", JStr "unknown"); ("distance", JNum 50)]])]).
Proof. reflexivity. Qed.

(** C1 on a request with two reference faces and a group image showing
    two faces. *)
Lemma C1_witness :
  validated (Demo.request (JArr [Demo.alice; Demo.bob])
                          (JStr "https://x/group.jpg"))
            [Demo.alice; Demo.bob] (JStr "https://x/group.jpg") /\
  result (loadLabeledImages Demo.world [Demo.alice; Demo.bob]) =
  inl [ {| ld_label := "alice"; descriptors := [[0; 0]%float] |};
        {| ld_label := "bob"; descriptors := [[3; 4]%float] |} ] /\
  result (loadImage Demo.world (JStr "https://x/group.jpg")) = inl 16 /\
  exists matches,
    snd (handler Demo.world
           (Demo.request (JArr [Demo.alice; Demo.bob])
                         (JStr "https://x/group.jpg"))) =
    json 200 (JObj [("success", JBool true); ("matches", JArr matches)]) /\
    length matches = 2.
Proof.
  assert (Hv : validated (Demo.request (JArr [Demo.alice; Demo.bob])
                                       (JStr "https://x/group.jpg"))
                         [Demo.alice; Demo.bob] (JStr "https://x/group.jpg"))
    by (repeat split).
  assert (Hlds : result (loadLabeledImages Demo.world [Demo.alice; Demo.bob]) =
                 inl [ {| ld_label := "alice"; descriptors := [[0; 0]%float] |};
                       {| ld_label := "bob"; descriptors := [[3; 4]%float] |} ])
    by reflexivity.
  assert (Hload : result (loadImage Demo.world (JStr "https://x/group.jpg")) =
                  inl 16) by reflexivity.
  split; [exact Hv|]. split; [exact Hlds|]. split; [exact Hload|].
  destruct (@C1_one_match_per_detected_face _ Demo.world _ _ _ _ _
              [Demo.face [0; 0.25]%float; Demo.face [30; 40]%float]
              Hv demo_models_loaded Hlds ltac:(discriminate) Hload eq_refl)
    as (matches & Hresp & Hlen & _).
  exists matches. split; [exact Hresp | exact Hlen].
Defined.

(** C2 on a dataset whose middle entry points to an image answered with
    "Not Found". *)
Lemma C2_witness :
  skipped Demo.world
    (Demo.entry (JStr "carol") (JStr "https://x/missing.jpg")) /\
  result (loadLabeledImages Demo.world
            [Demo.alice;
             Demo.entry (JStr "carol") (JStr "https://x/missing.jpg");
             Demo.bob]) =
  result (loadLabeledImages Demo.world [Demo.alice; Demo.bob]).
Proof.
  assert (Hskip : skipped Demo.world
            (Demo.entry (JStr "carol") (JStr "https://x/missing.jpg"))).
  { apply skipped_image_failure
      with (id := JStr "carol") (imglink := JStr "https://x/missing.jpg")
           (e := Error "Failed to fetch image: Not Found").
    - split; reflexivity.
    - left. reflexivity.
    - reflexivity. }
  split; [exact Hskip|].
  exact (proj2 (@C2_skipped_entry_is_isolated _ Demo.world
                  [Demo.alice] _ [Demo.bob] Hskip)).
Defined.


(** C4 on a body whose dataset is a string, and on one with an empty
    [group_img]. *)
Lemma C4_witness :
  snd (handler Demo.world (Demo.request (JStr "alice") (JStr "https://x/group.jpg"))) =
  json 400 (JObj [("error", JStr "Invalid dataset format");
                  ("received", JStr "alice")]) /\
  snd (handler Demo.world (Demo.request (JArr [Demo.alice]) (JStr ""))) =
  json 400 (JObj [("error", JStr "Missing group_img")]).
Proof.
  split.
  - exact (proj1 (@C4_validation_responses _ Demo.world
                    (Demo.request (JStr "alice") (JStr "https://x/group.jpg"))
                    (JStr "alice") (JStr "https://x/group.jpg")
                    eq_refl eq_refl) eq_refl).
  - exact (proj2 (@C4_validation_responses _ Demo.world
                    (Demo.request (JArr [Demo.alice]) (JStr ""))
                    (JArr [Demo.alice]) (JStr "")
                    eq_refl eq_refl) eq_refl eq_refl).
Defined.

(** C5 on the empty dataset. *)
Lemma C5_witness :
  validated (Demo.request (JArr []) (JStr "https://x/group.jpg"))
            [] (JStr "https://x/group.jpg") /\
  result (loadLabeledImages Demo.world []) = inl [] /\
  handler Demo.world (Demo.request (JArr []) (JStr "https://x/group.jpg")) =
  (modelLoads Demo.world,
   json 400
     (JObj [("error",
             JStr "No valid face descriptors could be generated from the dataset")])).
Proof.
  assert (Hv : validated (Demo.request (JArr []) (JStr "https://x/group.jpg"))
                         [] (JStr "https://x/group.jpg")) by (repeat split).
  split; [exact Hv|]. split; [reflexivity|].
  exact (proj1 (@C5_no_descriptors_stops_the_request _ Demo.world _ _ _
                  Hv demo_models_loaded eq_refl)).
Defined.

(** C6 on a group image answered with "Not Found". *)
Lemma C6_witness :
  Demo.fetch (JStr "https://x/missing.jpg") =
  inl {| ok := false; statusText := "Not Found"; buffer := inl [] |} /\
  loadImage Demo.world (JStr "https://x/missing.jpg") =
  ([EvFetch (JStr "https://x/missing.jpg")],
   inr (Error "Failed to fetch image: Not Found")) /\
  snd (handler Demo.world
         (Demo.request (JArr [Demo.alice]) (JStr "https://x/missing.jpg"))) =
  json 500 (JObj [("error", JStr "Failed to process group image");
                  ("message", JStr "Failed to fetch image: Not Found")]).
Proof.
  split; [reflexivity|].
  destruct (@C6_unsuccessful_fetch_is_reported _ Demo.world
              (JStr "https://x/missing.jpg")
              {| ok := false; statusText := "Not Found"; buffer := inl [] |}
              eq_refl eq_refl) as [Hload Hhandler].
  split; [exact Hload|].
  apply (Hhandler _ [Demo.alice]
           [{| ld_label := "alice"; descriptors := [[0; 0]%float] |}]).
  - repeat split.
  - exact demo_models_loaded.
  - reflexivity.
  - discriminate.
Defined.


(** C8 on the second face of the group image, far from both references. *)
Lemma C8_witness :
  In (EvFindBestMatch
        {| labeledDescriptors :=
             [ {| ld_label := "alice"; descriptors := [[0; 0]%float] |};
               {| ld_label := "bob"; descriptors := [[3; 4]%float] |} ];
           distanceThreshold := THRESHOLD |}
        [30; 40]%float)
     (fst (handler Demo.world
             (Demo.request (JArr [Demo.alice; Demo.bob])
                           (JStr "https://x/group.jpg")))) /\
  matcherConvention Demo.world /\
  label (Demo.findBestMatch
           {| labeledDescriptors :=
                [ {| ld_label := "alice"; descriptors := [[0; 0]%float] |};
                  {| ld_label := "bob"; descriptors := [[3; 4]%float] |} ];
              distanceThreshold := THRESHOLD |}
           [30; 40]%float) = "unknown".
Proof.
  assert (Hin :
    In (EvFindBestMatch
          {| labeledDescriptors :=
               [ {| ld_label := "alice"; descriptors := [[0; 0]%float] |};
                 {| ld_label := "bob"; descriptors := [[3; 4]%float] |} ];
             distanceThreshold := THRESHOLD |}
          [30; 40]%float)
       (fst (handler Demo.world
               (Demo.request (JArr [Demo.alice; Demo.bob])
                             (JStr "https://x/group.jpg"))))).
  { vm_compute. do 14 right. left. reflexivity. }
  split; [exact Hin|]. split; [exact demo_matcher_convention|].
  exact (proj2 (proj2 (@C8_matcher_built_from_survivors _ Demo.world _ _ _ Hin))
           demo_matcher_convention eq_refl).
Defined.



(** C10 on a body in which both fields are invalid. *)
Lemma C10_witness :
  handler Demo.world (Demo.request JNull (JStr "")) =
  ([], json 400 (JObj [("error", JStr "Invalid dataset format");
                       ("received", JNull)])) /\
  fst (handler Demo.world (Demo.request (JArr [Demo.alice]) JUndefined)) = [].
Proof.
  split.
  - exact (proj1 (@C10_validation_comes_first _ Demo.world
                    (Demo.request JNull (JStr "")))
             JNull (JStr "") eq_refl eq_refl eq_refl).
  - exact (proj2 (@C10_validation_comes_first _ Demo.world
                    (Demo.request (JArr [Demo.alice]) JUndefined))
             JUndefined (or_intror eq_refl)).
Defined.

(** ** Further properties of the image loader *)

Section ImageLoader.

Context {Image : Type}.
Variable W : World Image.

(** The four ways [loadImage] can run. *)
Lemma loadImage_run url :
  loadImage W url =
  match fetch W url with
  | inr e => ([EvFetch url], inr e)
  | inl response =>
      if ok response then
        match buffer response with
        | inr e => ([EvFetch url], inr e)
        | inl buf =>
            ([EvFetch url; EvCanvasLoadImage buf], canvas_loadImage W buf)
        end
      else
        ([EvFetch url],
         inr (Error ("Failed to fetch image: " ++ statusText response)))
  end.
Proof.
  unfold loadImage, try_catch, bind, call, throw, lift, ret, result, trace.
  simpl. destruct (fetch W url) as [response|e]; simpl; [|reflexivity].
  destruct (ok response); simpl; [|reflexivity].
  destruct (buffer response) as [buf|e]; simpl; [|reflexivity].
  destruct (canvas_loadImage W buf); reflexivity.
Qed.

(** [loadImage] returns an image exactly when the fetch resolved with an
    ok response, the body could be read and the bytes could be decoded; the
    image is the decoded one. *)
Theorem loadImage_succeeds_iff url image :
  result (loadImage W url) = inl image <->
  exists response buf,
    fetch W url = inl response /\
    ok response = true /\
    buffer response = inl buf /\
    canvas_loadImage W buf = inl image.
Proof.
  rewrite loadImage_run. split.
  - destruct (fetch W url) as [response|e]; [|discriminate].
    destruct (ok response) eqn:Hok; [|discriminate].
    destruct (buffer response) as [buf|e] eqn:Hbuf; [|discriminate].
    intros Hdecode. exists response, buf. repeat split; trivial.
  - intros (response & buf & -> & -> & -> & Hdecode). exact Hdecode.
Qed.

(** The [catch] of [loadImage] rethrows what it caught: a rejected fetch,
    an unreadable body and a failed decoding each surface with their own
    error, unchanged. *)
Theorem loadImage_rethrows_unchanged url e :
  (fetch W url = inr e ->
   result (loadImage W url) = inr e) /\
  (forall response,
      fetch W url = inl response ->
      ok response = true ->
      buffer response = inr e ->
      result (loadImage W url) = inr e) /\
  (forall response buf,
      fetch W url = inl response ->
      ok response = true ->
      buffer response = inl buf ->
      canvas_loadImage W buf = inr e ->
      result (loadImage W url) = inr e).
Proof.
  rewrite loadImage_run. repeat split.
  - now intros ->.
  - now intros response -> -> ->.
  - now intros response buf -> -> ->.
Qed.

(** [loadImage] fetches exactly once, and decodes at most once: only the
    body of an ok response is ever handed to [canvas.loadImage]. *)
Theorem loadImage_decodes_only_ok_bodies url :
  trace (loadImage W url) = [EvFetch url] \/
  exists response buf,
    fetch W url = inl response /\
    ok response = true /\
    buffer response = inl buf /\
    trace (loadImage W url) = [EvFetch url; EvCanvasLoadImage buf].
Proof.
  rewrite loadImage_run.
  destruct (fetch W url) as [response|e]; [|now left].
  destruct (ok response) eqn:Hok; [|now left].
  destruct (buffer response) as [buf|e] eqn:Hbuf; [|now left].
  right. exists response, buf. repeat split; trivial.
Qed.

End ImageLoader.

(** ** Further properties of the reference processor *)

Section ReferenceProcessorShape.

Context {Image : Type}.
Variable W : World Image.

Lemma loadImage_fetches url : In (EvFetch url) (trace (loadImage W url)).
Proof.
  rewrite loadImage_run.
  destruct (fetch W url) as [response|e]; [|now left].
  destruct (ok response); [|now left].
  destruct (buffer response); now left.
Qed.

(** What a resolved [Promise.all] holds: the value of each promise, in
    order. *)
Lemma promise_all_resolved {A B} (f : A -> Eff Image B) xs l :
  result (promise_all (map f xs)) = inl l ->
  Forall2 (fun x r => result (f x) = inl r) xs l.
Proof.
  revert l. induction xs as [|x xs IH]; intros l; simpl map.
  - intros [= <-]. constructor.
  - rewrite result_promise_all_cons.
    destruct (result (f x)) as [r|e] eqn:Hx; [|discriminate].
    destruct (result (promise_all (map f xs))) as [rs|e]; [|discriminate].
    intros [= <-]. constructor; [exact Hx | now apply IH].
Qed.

(** What a rejected [Promise.all] tells: the first promise that rejects, in
    order, and its error. *)
Lemma promise_all_first_rejection {A B} (f : A -> Eff Image B) xs e :
  result (promise_all (map f xs)) = inr e ->
  exists before x after,
    xs = (before ++ x :: after)%list /\
    result (f x) = inr e /\
    Forall (fun y => exists r, result (f y) = inl r) before.
Proof.
  induction xs as [|x xs IH]; simpl map; [discriminate|].
  rewrite result_promise_all_cons.
  destruct (result (f x)) as [r|e'] eqn:Hx.
  - destruct (result (promise_all (map f xs))) as [rs|e'']; [discriminate|].
    intros [= <-]. destruct (IH eq_refl) as (before & y & after & -> & Hy & Hb).
    exists (x :: before), y, after. repeat split; trivial.
    constructor; [now exists r | exact Hb].
  - intros [= <-]. exists [], x, xs. repeat split; trivial.
Qed.

Lemma promise_all_app {A} (ps qs : list (Eff Image A)) :
  trace (promise_all (ps ++ qs)) =
  (trace (promise_all ps) ++ trace (promise_all qs))%list /\
  result (promise_all (ps ++ qs)) =
  match result (promise_all ps), result (promise_all qs) with
  | inl l, inl l' => inl (l ++ l')%list
  | inr e, _ => inr e
  | inl _, inr e => inr e
  end.
Proof.
  induction ps as [|p ps [IHt IHr]]; simpl app.
  - split; [reflexivity|]. simpl. destruct (result (promise_all qs)); reflexivity.
  - rewrite !trace_promise_all_cons, !result_promise_all_cons, IHt, IHr.
    split; [now rewrite app_assoc|].
    destruct (result p); [|reflexivity].
    destruct (result (promise_all ps)); [|reflexivity].
    destruct (result (promise_all qs)); reflexivity.
Qed.

Lemma filterNotNull_app {A} (l l' : list (option A)) :
  filterNotNull (l ++ l') = (filterNotNull l ++ filterNotNull l')%list.
Proof.
  induction l as [|[a|] l IH]; simpl; [reflexivity | now rewrite IH | exact IH].
Qed.

(** The ways a callback can end: it rejects on an entry that cannot be
    destructured or on an id that cannot be printed, and resolves
    otherwise. *)
Lemma processEntry_rejected data e :
  result (processEntry W data) = inr e ->
  (data = JUndefined \/ data = JNull) \/
  (exists id imglink,
      entryOf data id imglink /\
      toBoolean id = true /\ toBoolean imglink = true /\
      toStringV (Number_toString W) id = None).
Proof.
  destruct (getProp "data" "id" data) as [id|e'] eqn:Hi.
  2: { intros _. left. destruct data; try discriminate Hi; auto. }
  destruct (getProp "data" "imglink" data) as [imglink|e'] eqn:Hl.
  2: { destruct (@getProp_nullish _ _ "id" _ _ Hl) as [e'' He'']. congruence. }
  destruct (toBoolean id) eqn:Ht.
  2: { rewrite (processEntry_invalid W _ Hi Hl) by now left. discriminate. }
  destruct (toBoolean imglink) eqn:Ht'.
  2: { rewrite (processEntry_invalid W _ Hi Hl) by now right. discriminate. }
  destruct (toStringV (Number_toString W) id) as [s|] eqn:Hs.
  { rewrite (processEntry_printable W _ Hi Hl Ht Ht' Hs). discriminate. }
  intros _. right. exists id, imglink. repeat split; trivial.
Qed.

Lemma processEntry_labeled data ld :
  result (processEntry W data) = inl (Some ld) -> labels W data ld.
Proof.
  destruct (getProp "data" "id" data) as [id|e'] eqn:Hi.
  2: { rewrite (processEntry_nullish W _ Hi). discriminate. }
  destruct (getProp "data" "imglink" data) as [imglink|e'] eqn:Hl.
  2: { destruct (@getProp_nullish _ _ "id" _ _ Hl) as [e'' He'']. congruence. }
  destruct (toBoolean id) eqn:Ht.
  2: { rewrite (processEntry_invalid W _ Hi Hl) by now left. discriminate. }
  destruct (toBoolean imglink) eqn:Ht'.
  2: { rewrite (processEntry_invalid W _ Hi Hl) by now right. discriminate. }
  destruct (toStringV (Number_toString W) id) as [s|] eqn:Hs.
  2: { rewrite (processEntry_unprintable W _ Hi Hl Ht Ht' Hs). discriminate. }
  pose proof (processEntry_printable W _ Hi Hl Ht Ht' Hs) as Hrun.
  rewrite Hrun. unfold result at 1. cbn [snd]. unfold outcome.
  destruct (result (loadImage W imglink)) as [img|e] eqn:Hload; [|discriminate].
  destruct (detectSingleFace W img) as [[d|]|e] eqn:Hface; try discriminate.
  intros [= <-]. exists id, d. split; [|split; [exact Hs | reflexivity]].
  exists imglink, img. repeat split; trivial.
  unfold fetchesImage. rewrite Hrun. unfold trace at 1. cbn [fst].
  apply in_or_app. left. apply loadImage_fetches.
Qed.

(** Every labeled descriptor that [loadLabeledImages] returns stems from an
    entry of the dataset with truthy fields whose image loaded and showed a
    face: its label is that entry's id as a string and it holds that one
    descriptor.  There are never more descriptors than entries. *)
Theorem loadLabeledImages_sound dataset lds :
  result (loadLabeledImages W dataset) = inl lds ->
  length lds <= length dataset /\
  Forall (fun ld => exists data, In data dataset /\ labels W data ld) lds.
Proof.
  rewrite result_loadLabeledImages.
  destruct (result (promise_all (map (processEntry W) dataset)))
    as [l|e] eqn:Hall; [|discriminate].
  intros [= <-]. apply promise_all_resolved in Hall.
  induction Hall as [|data r dataset l Hdata _ [IHlen IHall]].
  - split; [apply Nat.le_refl | constructor].
  - destruct r as [ld|]; simpl.
    + split; [lia|]. constructor.
      * exists data. split; [now left | now apply processEntry_labeled].
      * eapply Forall_impl; [|exact IHall].
        intros ld' (data' & Hin & Hlab). exists data'. split; [now right|exact Hlab].
    + split; [lia|]. eapply Forall_impl; [|exact IHall].
      intros ld' (data' & Hin & Hlab). exists data'. split; [now right|exact Hlab].
Qed.

(** Processing a concatenated dataset is processing its parts: the calls
    made are those made for the first part and those made for the second,
    and the descriptors are those of the first part followed by those of the
    second; a rejection of the first part takes precedence.  Nothing is
    merged or deduplicated. *)
Theorem loadLabeledImages_app first second :
  (forall ev,
      In ev (trace (loadLabeledImages W (first ++ second))) <->
      In ev (trace (loadLabeledImages W first)) \/
      In ev (trace (loadLabeledImages W second))) /\
  result (loadLabeledImages W (first ++ second)) =
  match result (loadLabeledImages W first),
        result (loadLabeledImages W second) with
  | inl lds, inl lds' => inl (lds ++ lds')%list
  | inr e, _ => inr e
  | inl _, inr e => inr e
  end.
Proof.
  rewrite !trace_loadLabeledImages, !result_loadLabeledImages, map_app.
  destruct (promise_all_app (map (processEntry W) first)
                            (map (processEntry W) second)) as [-> ->].
  split; [intros ev; apply in_app_iff|].
  destruct (result (promise_all (map (processEntry W) first))); [|reflexivity].
  destruct (result (promise_all (map (processEntry W) second))); [|reflexivity].
  now rewrite filterNotNull_app.
Qed.

(** The batch rejects with the error of the first entry, in dataset order,
    whose callback rejects; that entry is [undefined] or [null], or has
    truthy fields and an id that cannot be converted to a string.  A failed
    fetch, a failed decoding or a failed detection never rejects the
    batch. *)
Theorem loadLabeledImages_rejection_cause dataset e :
  result (loadLabeledImages W dataset) = inr e ->
  exists before data after,
    dataset = (before ++ data :: after)%list /\
    result (processEntry W data) = inr e /\
    Forall (fun d => exists r, result (processEntry W d) = inl r) before /\
    ((data = JUndefined \/ data = JNull) \/
     (exists id imglink,
         entryOf data id imglink /\
         toBoolean id = true /\ toBoolean imglink = true /\
         toStringV (Number_toString W) id = None)).
Proof.
  rewrite result_loadLabeledImages.
  destruct (result (promise_all (map (processEntry W) dataset)))
    as [l|e'] eqn:Hall; [discriminate|].
  intros [= ->]. apply promise_all_first_rejection in Hall.
  destruct Hall as (before & data & after & -> & Hdata & Hbefore).
  exists before, data, after. repeat split; trivial.
  now apply processEntry_rejected with e.
Qed.


End ReferenceProcessorShape.

(** ** Further properties of the handler *)

Section HandlerShape.

Context {Image : Type}.
Variable W : World Image.

Lemma processEntry_calls_in_batch entries data ev :
  In data entries ->
  In ev (trace (processEntry W data)) ->
  In ev (trace (loadLabeledImages W entries)).
Proof.
  intros Hin Hev. rewrite trace_loadLabeledImages.
  induction entries as [|x entries IH]; [contradiction|].
  simpl map. rewrite trace_promise_all_cons. apply in_or_app.
  destruct Hin as [->|Hin]; [now left | right; now apply IH].
Qed.

Lemma trace_matchStage_starts entries group_img :
  exists rest,
    trace (matchStage W entries group_img) =
    (trace (loadLabeledImages W entries) ++ rest)%list.
Proof.
  destruct (result (loadLabeledImages W entries)) as [lds|e] eqn:Hlds.
  - destruct lds as [|ld lds].
    + rewrite (matchStage_empty W _ group_img Hlds).
      exists []. simpl. now rewrite app_nil_r.
    + rewrite (matchStage_matcher W _ group_img Hlds) by discriminate.
      eexists. reflexivity.
  - rewrite (matchStage_rejected W _ group_img Hlds).
    exists []. simpl. now rewrite app_nil_r.
Qed.

Lemma all_null_batch entries :
  result (loadLabeledImages W entries) = inl [] ->
  Forall (fun data => result (processEntry W data) = inl None) entries.
Proof.
  rewrite result_loadLabeledImages.
  destruct (result (promise_all (map (processEntry W) entries)))
    as [l|e] eqn:Hall; [|discriminate].
  intros [= Hnone]. apply promise_all_resolved in Hall.
  induction Hall as [|data r entries l Hdata _ IH]; [constructor|].
  destruct r as [ld|]; [discriminate Hnone|].
  constructor; [exact Hdata | now apply IH].
Qed.

Lemma invalid_entries_make_no_call entries :
  Forall (fun data =>
            exists id imglink,
              entryOf data id imglink /\
              (toBoolean id = false \/ toBoolean imglink = false)) entries ->
  loadLabeledImages W entries = ([], inl []).
Proof.
  intros Hall.
  assert (Hnone : promise_all (map (processEntry W) entries) =
                  ([], inl (map (fun _ => None) entries))).
  { induction Hall as [|data entries (id & imglink & [Hi Hl] & Hf) _ IH];
      [reflexivity|].
    simpl map. apply eff_eq.
    - rewrite trace_promise_all_cons, IH.
      now rewrite (processEntry_invalid W _ Hi Hl Hf).
    - rewrite result_promise_all_cons, IH.
      now rewrite (processEntry_invalid W _ Hi Hl Hf). }
  apply eff_eq.
  - now rewrite trace_loadLabeledImages, Hnone.
  - rewrite result_loadLabeledImages, Hnone. unfold result. cbn [snd].
    f_equal. clear. induction entries; [reflexivity | assumption].
Qed.

(** Whatever the body, the handler sends one of eight responses: 200 with
    the matches; 400 for an invalid dataset, a missing group image or an
    empty descriptor set; 500 for a failed model load, a failed group
    image or any other error.  Nothing else is ever sent. *)
Theorem handler_always_answers reqBody :
  let response := snd (handler W reqBody) in
  (status response = 200 /\
   exists results, body response = success results) \/
  (status response = 400 /\
   ((exists dataset, body response = invalidDataset dataset) \/
    body response = missingGroupImg \/
    body response = noDescriptors)) \/
  (status response = 500 /\
   exists e,
     body response = modelsFailed e \/
     body response = groupImageFailed e \/
     body response = internalError e).
Proof.
  pose proof (handler_exits W reqBody) as Hexit.
  destruct Hexit
    as [e _ | dataset group_img _ _ _ | dataset group_img _ _ _ _
        | entries group_img modelError _ _
        | entries group_img error _ _ _
        | entries group_img _ _ _
        | entries group_img lds faceMatcher response _ _ _ _ _ Hresp];
    cbn [snd status body json].
  - right; right. split; [reflexivity|]. exists e. auto.
  - right; left. split; [reflexivity|]. left. now exists dataset.
  - right; left. split; [reflexivity|]. auto.
  - right; right. split; [reflexivity|]. exists modelError. auto.
  - right; right. split; [reflexivity|]. exists error. auto.
  - right; left. split; [reflexivity|]. auto.
  - destruct (processGroupImage_cases W faceMatcher group_img)
      as [(e & _ & Hrun) | [(image & e & _ & _ & Hrun)
                           | (image & detections & _ & _ & Hrun)]];
      rewrite Hrun in Hresp; injection Hresp as <-; cbn [status body json].
    + right; right. split; [reflexivity|]. exists e. auto.
    + right; right. split; [reflexivity|]. exists e. auto.
    + left. split; [reflexivity|]. eexists. reflexivity.
Qed.

(** A 200 response is only sent when every stage succeeded: the body
    passed validation, the models loaded, the reference processor returned
    a non-empty list, the group image loaded and the detector returned;
    the matches are then the best matches of the detections. *)
Theorem success_requires_every_stage reqBody :
  status (snd (handler W reqBody)) = 200 ->
  exists entries group_img lds image detections,
    validated reqBody entries group_img /\
    modelsLoaded W /\
    result (loadLabeledImages W entries) = inl lds /\
    lds <> [] /\
    result (loadImage W group_img) = inl image /\
    detectAllFaces W image = inl detections /\
    snd (handler W reqBody) =
    json 200
      (success
         (map (fun d =>
                 findBestMatch W
                   {| labeledDescriptors := lds;
                      distanceThreshold := THRESHOLD |} (descriptor d))
              detections)).
Proof.
  pose proof (handler_exits W reqBody) as Hexit.
  destruct Hexit
    as [e _ | dataset group_img _ _ _ | dataset group_img _ _ _ _
        | entries group_img modelError _ _
        | entries group_img error _ _ _
        | entries group_img _ _ _
        | entries group_img lds faceMatcher response Hv Hl Hlds Hne
            HfaceMatcher Hresp];
    cbn [snd status json]; try discriminate.
  destruct (processGroupImage_cases W faceMatcher group_img)
    as [(e & _ & Hrun) | [(image & e & _ & _ & Hrun)
                         | (image & detections & Hload & Hdet & Hrun)]];
    rewrite Hrun in Hresp; injection Hresp as <-; cbn [status json];
    try discriminate.
  intros _. subst faceMatcher.
  exists entries, group_img, lds, image, detections. repeat split; trivial;
    apply Hv.
Qed.

(** The 400 response for an empty descriptor set is only sent after the
    models loaded and every entry of the dataset resolved to the [null]
    placeholder; the handler then made the model loads and the calls of the
    reference processor and nothing else. *)
Theorem no_descriptors_means_all_dropped reqBody :
  snd (handler W reqBody) = json 400 noDescriptors ->
  exists entries group_img,
    validated reqBody entries group_img /\
    modelsLoaded W /\
    Forall (fun data => result (processEntry W data) = inl None) entries /\
    fst (handler W reqBody) =
    (modelLoads W ++ trace (loadLabeledImages W entries))%list.
Proof.
  pose proof (handler_exits W reqBody) as Hexit.
  destruct Hexit
    as [e _ | dataset group_img _ _ _ | dataset group_img _ _ _ _
        | entries group_img modelError _ _
        | entries group_img error _ _ _
        | entries group_img Hv Hl Hlds
        | entries group_img lds faceMatcher response _ _ _ _ _ Hresp];
    cbn [fst snd]; try discriminate.
  - intros _. exists entries, group_img. repeat split; trivial; try apply Hv.
    now apply all_null_batch.
  - destruct (processGroupImage_responds W faceMatcher group_img)
      as (response' & Hr' & Hstatus).
    rewrite Hresp in Hr'. injection Hr' as <-.
    intros ->. simpl in Hstatus. destruct Hstatus; discriminate.
Qed.

End HandlerShape.

Section HandlerEdges.

Context {Image : Type}.
Variable W : World Image.

Lemma processGroupImage_calls faceMatcher group_img ev :
  In ev (trace (processGroupImage W faceMatcher group_img)) ->
  isImageCall ev = true \/
  (exists image,
      ev = EvDetectAllFaces image /\
      result (loadImage W group_img) = inl image) \/
  (exists query, ev = EvFindBestMatch faceMatcher query).
Proof.
  destruct (processGroupImage_cases W faceMatcher group_img)
    as [(e & _ & ->) | [(image & e & Hload & _ & ->)
                       | (image & detections & Hload & _ & ->)]];
    unfold trace at 1; cbn [fst].
  - intros Hin. left. now apply (@loadImage_calls _ W group_img).
  - rewrite in_app_iff. intros [Hin|[<-|[]]].
    + left. now apply (@loadImage_calls _ W group_img).
    + right; left. now exists image.
  - rewrite in_app_iff. intros [Hin|[<-|Hin]].
    + left. now apply (@loadImage_calls _ W group_img).
    + right; left. now exists image.
    + right; right. apply in_map_iff in Hin.
      destruct Hin as (d & <- & _). now exists (descriptor d).
Qed.

(** An entry with truthy fields whose id cannot be converted to a string
    (an object that owns a [toString] property, or an array holding one) is
    not skipped: the logging line of the [try] throws, the logging line of
    the [catch] throws again, the batch rejects and the request is answered
    500 "Internal server error". *)
Theorem unprintable_id_fails_the_request
    reqBody entries group_img data id imglink :
  validated reqBody entries group_img ->
  modelsLoaded W ->
  In data entries ->
  entryOf data id imglink ->
  toBoolean id = true ->
  toBoolean imglink = true ->
  toStringV (Number_toString W) id = None ->
  processEntry W data =
  ([], inr (Error "Cannot convert object to primitive value")) /\
  exists error,
    result (loadLabeledImages W entries) = inr error /\
    snd (handler W reqBody) = json 500 (internalError error).
Proof.
  intros (Hd & Hg & Htruthy) [loaded Hm] Hin [Hi Hl] Ht Ht' Hs.
  pose proof (processEntry_unprintable W _ Hi Hl Ht Ht' Hs) as Hthrow.
  split; [exact Hthrow|].
  destruct (@rejecting_entry_rejects_batch _ W entries data unprintable Hin)
    as [error Herror]; [now rewrite Hthrow|].
  exists error. split; [exact Herror|].
  rewrite (handler_models_loaded W _ Hd Hg Htruthy Hm).
  now rewrite (matchStage_rejected W _ group_img Herror).
Qed.

(** Any failure of the group-image stage, whether [loadImage] throws (a
    rejected fetch, a bad status, an undecodable body) or the detector
    throws, is answered 500 "Failed to process group image" with the
    message of that error, and no face is matched. *)
Theorem group_stage_failure_is_reported
    reqBody entries group_img lds groupImageError :
  validated reqBody entries group_img ->
  modelsLoaded W ->
  result (loadLabeledImages W entries) = inl lds ->
  lds <> [] ->
  result (loadImage W group_img) = inr groupImageError \/
  (exists image,
      result (loadImage W group_img) = inl image /\
      detectAllFaces W image = inr groupImageError) ->
  snd (handler W reqBody) =
  json 500 (JObj [("error", JStr "Failed to process group image");
                  ("message", JStr (message groupImageError))]) /\
  forall matcher query,
    ~ In (EvFindBestMatch matcher query) (fst (handler W reqBody)).
Proof.
  intros (Hd & Hg & Htruthy) [loaded Hm] Hlds Hne Hfail.
  rewrite (handler_models_loaded W _ Hd Hg Htruthy Hm).
  rewrite (matchStage_matcher W _ group_img Hlds Hne).
  assert (Hrun :
    exists calls,
      processGroupImage W
        {| labeledDescriptors := lds; distanceThreshold := THRESHOLD |}
        group_img =
      (calls, inl (json 500 (groupImageFailed groupImageError))) /\
      forall ev, In ev calls ->
                 isImageCall ev = true \/ exists image, ev = EvDetectAllFaces image).
  { destruct Hfail as [Hload | (image & Hload & Hdet)].
    - rewrite (@processGroupImage_not_loaded _ W _ _ _ Hload). eexists.
      split; [reflexivity|]. intros ev Hin. left.
      now apply (@loadImage_calls _ W group_img).
    - rewrite (@processGroupImage_not_detected _ W _ _ _ _ Hload Hdet). eexists.
      split; [reflexivity|]. intros ev Hin.
      apply in_app_iff in Hin. destruct Hin as [Hin|[<-|[]]].
      + left. now apply (@loadImage_calls _ W group_img).
      + right. now exists image. }
  destruct Hrun as (calls & -> & Hcalls). cbn [fst snd trace result].
  split; [reflexivity|]. intros matcher query Hin.
  apply in_app_iff in Hin. destruct Hin as [Hin|Hin].
  { simpl in Hin. destruct Hin as [Hin|[Hin|[Hin|[]]]]; discriminate Hin. }
  apply in_app_iff in Hin. destruct Hin as [Hin|[Hin|Hin]].
  - apply loadLabeledImages_calls in Hin. discriminate Hin.
  - discriminate Hin.
  - destruct (Hcalls _ Hin) as [Hcall | [image Hev]]; discriminate.
Qed.

(** The handler never hands an empty list to the [FaceMatcher]
    constructor, which would throw: a matcher is only constructed from the
    non-empty list the reference processor returned, with threshold 0.6. *)
Theorem matcher_is_never_built_empty reqBody inputs threshold :
  In (EvNewFaceMatcher inputs threshold) (fst (handler W reqBody)) ->
  inputs <> [] /\
  threshold = THRESHOLD /\
  exists entries group_img,
    validated reqBody entries group_img /\
    result (loadLabeledImages W entries) = inl inputs.
Proof.
  intros Hin. pose proof (handler_exits W reqBody) as Hexit.
  destruct Hexit
    as [e _ | dataset group_img _ _ _ | dataset group_img _ _ _ _
        | entries group_img modelError _ _
        | entries group_img error _ _ _
        | entries group_img _ _ _
        | entries group_img lds faceMatcher response Hv Hl Hlds Hne _ _];
    cbn [fst snd] in *; try contradiction.
  - simpl in Hin. destruct Hin as [Hin|[Hin|[Hin|[]]]]; discriminate Hin.
  - apply in_app_iff in Hin. destruct Hin as [Hin|Hin].
    + simpl in Hin. destruct Hin as [Hin|[Hin|[Hin|[]]]]; discriminate Hin.
    + apply loadLabeledImages_calls in Hin. discriminate Hin.
  - apply in_app_iff in Hin. destruct Hin as [Hin|Hin].
    + simpl in Hin. destruct Hin as [Hin|[Hin|[Hin|[]]]]; discriminate Hin.
    + apply loadLabeledImages_calls in Hin. discriminate Hin.
  - apply in_app_iff in Hin. destruct Hin as [Hin|Hin].
    { simpl in Hin. destruct Hin as [Hin|[Hin|[Hin|[]]]]; discriminate Hin. }
    apply in_app_iff in Hin. destruct Hin as [Hin|[Hin|Hin]].
    + apply loadLabeledImages_calls in Hin. discriminate Hin.
    + injection Hin as <- <-. repeat split; trivial.
      exists entries, group_img. now split.
    + apply processGroupImage_calls in Hin.
      destruct Hin as [Hcall | [(image & Hev & _) | (query & Hev)]];
        discriminate.
Qed.

(** [detectAllFaces] is only ever called on the image loaded from
    [group_img], and only after the reference processor returned a
    non-empty list. *)
Theorem detectAllFaces_only_on_the_group_image reqBody image :
  In (EvDetectAllFaces image) (fst (handler W reqBody)) ->
  exists entries group_img lds,
    validated reqBody entries group_img /\
    result (loadLabeledImages W entries) = inl lds /\
    lds <> [] /\
    result (loadImage W group_img) = inl image.
Proof.
  intros Hin. pose proof (handler_exits W reqBody) as Hexit.
  destruct Hexit
    as [e _ | dataset group_img _ _ _ | dataset group_img _ _ _ _
        | entries group_img modelError _ _
        | entries group_img error _ _ _
        | entries group_img _ _ _
        | entries group_img lds faceMatcher response Hv Hl Hlds Hne _ _];
    cbn [fst snd] in *; try contradiction.
  - simpl in Hin. destruct Hin as [Hin|[Hin|[Hin|[]]]]; discriminate Hin.
  - apply in_app_iff in Hin. destruct Hin as [Hin|Hin].
    + simpl in Hin. destruct Hin as [Hin|[Hin|[Hin|[]]]]; discriminate Hin.
    + apply loadLabeledImages_calls in Hin. discriminate Hin.
  - apply in_app_iff in Hin. destruct Hin as [Hin|Hin].
    + simpl in Hin. destruct Hin as [Hin|[Hin|[Hin|[]]]]; discriminate Hin.
    + apply loadLabeledImages_calls in Hin. discriminate Hin.
  - apply in_app_iff in Hin. destruct Hin as [Hin|Hin].
    { simpl in Hin. destruct Hin as [Hin|[Hin|[Hin|[]]]]; discriminate Hin. }
    apply in_app_iff in Hin. destruct Hin as [Hin|[Hin|Hin]].
    + apply loadLabeledImages_calls in Hin. discriminate Hin.
    + discriminate Hin.
    + apply processGroupImage_calls in Hin.
      destruct Hin as [Hcall | [(image' & Hev & Hload) | (query & Hev)]];
        try discriminate.
      injection Hev as <-. exists entries, group_img, lds.
      split; [exact Hv|]. split; [exact Hlds|]. split; [exact Hne | exact Hload].
Qed.

(** A dataset in which every entry lacks a truthy [id] or [imglink] costs
    no fetch: the reference processor makes no call at all and the request
    is answered 400 after the three model loads. *)
Theorem dataset_without_valid_entries reqBody entries group_img :
  validated reqBody entries group_img ->
  modelsLoaded W ->
  Forall (fun data =>
            exists id imglink,
              entryOf data id imglink /\
              (toBoolean id = false \/ toBoolean imglink = false)) entries ->
  loadLabeledImages W entries = ([], inl []) /\
  handler W reqBody = (modelLoads W, json 400 noDescriptors).
Proof.
  intros (Hd & Hg & Htruthy) [loaded Hm] Hall.
  pose proof (invalid_entries_make_no_call W Hall) as Hrun.
  split; [exact Hrun|].
  rewrite (handler_models_loaded W _ Hd Hg Htruthy Hm).
  rewrite (matchStage_empty W entries group_img) by now rewrite Hrun.
  rewrite Hrun. cbn [trace fst]. now rewrite app_nil_r.
Qed.

(** Once validation has passed and the models have loaded, the calls of
    every entry of the dataset are made, whatever becomes of the batch and
    of the request: a rejecting entry does not stop its siblings. *)
Theorem every_entry_is_processed reqBody entries group_img data ev :
  validated reqBody entries group_img ->
  modelsLoaded W ->
  In data entries ->
  In ev (trace (processEntry W data)) ->
  In ev (fst (handler W reqBody)).
Proof.
  intros (Hd & Hg & Htruthy) [loaded Hm] Hin Hev.
  rewrite (handler_models_loaded W _ Hd Hg Htruthy Hm). cbn [fst].
  destruct (trace_matchStage_starts W entries group_img) as [rest ->].
  apply in_or_app. right. apply in_or_app. left.
  now apply processEntry_calls_in_batch with data.
Qed.

(** A body without fields: [null] and [undefined] make the destructuring
    of line 52 throw, which the outer [catch] answers with 500; any other
    body that is not an object with a [dataset] array (a bare array of
    entries, a string, a number, a boolean) reads [dataset] as [undefined]
    and is answered 400.  Neither makes a call. *)
Theorem body_without_fields reqBody :
  match reqBody with
  | JUndefined | JNull =>
      handler W reqBody =
      ([], json 500
             (JObj [("error", JStr "Internal server error");
                    ("message",
                     JStr (destructureMessage "dataset" "req.body" reqBody))]))
  | JObj _ => True
  | _ =>
      handler W reqBody =
      ([], json 400 (JObj [("error", JStr "Invalid dataset format");
                           ("received", JUndefined)]))
  end.
Proof. destruct reqBody; reflexivity || exact I. Qed.

End HandlerEdges.

(** ** The further properties on the concrete world *)

(** A served body that cannot be decoded surfaces with the decoder's
    error. *)
Lemma loadImage_rethrows_unchanged_witness :
  result (loadImage Demo.world (JStr "https://x/broken.jpg")) =
  inr (Error "Unsupported image type").
Proof.
  exact (proj2 (proj2 (@loadImage_rethrows_unchanged _ Demo.world
                         (JStr "https://x/broken.jpg")
                         (Error "Unsupported image type")))
           {| ok := true; statusText := "OK"; buffer := inl [xff] |} [xff]
           eq_refl eq_refl eq_refl eq_refl).
Defined.

(** Three entries, the middle one without a face: two descriptors, each
    stemming from an entry. *)
Lemma loadLabeledImages_sound_witness :
  result (loadLabeledImages Demo.world
            [Demo.alice;
             Demo.entry (JStr "nobody") (JStr "https://x/blank.jpg");
             Demo.bob]) =
  inl [ {| ld_label := "alice"; descriptors := [[0; 0]%float] |};
        {| ld_label := "bob"; descriptors := [[3; 4]%float] |} ] /\
  Forall (fun ld =>
            exists data,
              In data [Demo.alice;
                       Demo.entry (JStr "nobody") (JStr "https://x/blank.jpg");
                       Demo.bob] /\
              labels Demo.world data ld)
         [ {| ld_label := "alice"; descriptors := [[0; 0]%float] |};
           {| ld_label := "bob"; descriptors := [[3; 4]%float] |} ].
Proof.
  split; [reflexivity|].
  exact (proj2 (@loadLabeledImages_sound _ Demo.world
                  [Demo.alice;
                   Demo.entry (JStr "nobody") (JStr "https://x/blank.jpg");
                   Demo.bob] _ eq_refl)).
Defined.

(** The same id twice gives the same label twice. *)
Lemma loadLabeledImages_app_witness :
  result (loadLabeledImages Demo.world ([Demo.alice] ++ [Demo.alice])) =
  inl [ {| ld_label := "alice"; descriptors := [[0; 0]%float] |};
        {| ld_label := "alice"; descriptors := [[0; 0]%float] |} ].
Proof.
  exact (proj2 (@loadLabeledImages_app _ Demo.world [Demo.alice] [Demo.alice])).
Defined.

(** A [null] after a good entry: the batch rejects with the error of the
    [null]. *)
Lemma loadLabeledImages_rejection_cause_witness :
  result (loadLabeledImages Demo.world [Demo.alice; JNull; Demo.bob]) =
  inr (Error "Cannot destructure property 'id' of 'data' as it is null.") /\
  exists before data after,
    [Demo.alice; JNull; Demo.bob] = (before ++ data :: after)%list /\
    result (processEntry Demo.world data) =
    inr (Error "Cannot destructure property 'id' of 'data' as it is null.") /\
    Forall (fun d => exists r, result (processEntry Demo.world d) = inl r)
           before /\
    ((data = JUndefined \/ data = JNull) \/
     (exists id imglink,
         entryOf data id imglink /\
         toBoolean id = true /\ toBoolean imglink = true /\
         toStringV (Number_toString Demo.world) id = None)).
Proof.
  split; [reflexivity|].
  exact (@loadLabeledImages_rejection_cause _ Demo.world
           [Demo.alice; JNull; Demo.bob] _ eq_refl).
Defined.


(** The successful request of the scenario. *)
Lemma success_requires_every_stage_witness :
  status (snd (handler Demo.world
                 (Demo.request (JArr [Demo.alice])
                               (JStr "https://x/group.jpg")))) = 200 /\
  exists entries group_img lds image detections,
    validated (Demo.request (JArr [Demo.alice]) (JStr "https://x/group.jpg"))
              entries group_img /\
    result (loadLabeledImages Demo.world entries) = inl lds /\
    result (loadImage Demo.world group_img) = inl image /\
    detectAllFaces Demo.world image = inl detections.
Proof.
  split; [reflexivity|].
  destruct (@success_requires_every_stage _ Demo.world
              (Demo.request (JArr [Demo.alice]) (JStr "https://x/group.jpg"))
              eq_refl)
    as (entries & group_img & lds & image & detections
        & Hv & _ & Hlds & _ & Hload & Hdet & _).
  exists entries, group_img, lds, image, detections.
  split; [exact Hv|]. split; [exact Hlds|]. split; [exact Hload | exact Hdet].
Defined.

(** A dataset whose only image shows no face. *)
Lemma no_descriptors_means_all_dropped_witness :
  snd (handler Demo.world
         (Demo.request
            (JArr [Demo.entry (JStr "nobody") (JStr "https://x/blank.jpg")])
            (JStr "https://x/group.jpg"))) =
  json 400 noDescriptors /\
  exists entries group_img,
    validated
      (Demo.request
         (JArr [Demo.entry (JStr "nobody") (JStr "https://x/blank.jpg")])
         (JStr "https://x/group.jpg")) entries group_img /\
    Forall (fun data => result (processEntry Demo.world data) = inl None)
           entries.
Proof.
  split; [reflexivity|].
  destruct (@no_descriptors_means_all_dropped _ Demo.world
              (Demo.request
                 (JArr [Demo.entry (JStr "nobody") (JStr "https://x/blank.jpg")])
                 (JStr "https://x/group.jpg"))
              eq_refl)
    as (entries & group_img & Hv & _ & Hall & _).
  exists entries, group_img. split; [exact Hv | exact Hall].
Defined.

(** An id that owns a [toString] property, next to a good entry. *)
Lemma unprintable_id_fails_the_request_witness :
  toStringV (Number_toString Demo.world) (JObj [("toString", JNull)]) = None /\
  exists error,
    result (loadLabeledImages Demo.world
              [Demo.alice;
               Demo.entry (JObj [("toString", JNull)])
                          (JStr "https://x/bob.jpg")]) = inr error /\
    snd (handler Demo.world
           (Demo.request
              (JArr [Demo.alice;
                     Demo.entry (JObj [("toString", JNull)])
                                (JStr "https://x/bob.jpg")])
              (JStr "https://x/group.jpg"))) =
    json 500 (internalError error).
Proof.
  split; [reflexivity|].
  refine (proj2 (@unprintable_id_fails_the_request _ Demo.world
                   (Demo.request
                      (JArr [Demo.alice;
                             Demo.entry (JObj [("toString", JNull)])
                                        (JStr "https://x/bob.jpg")])
                      (JStr "https://x/group.jpg"))
                   [Demo.alice;
                    Demo.entry (JObj [("toString", JNull)])
                               (JStr "https://x/bob.jpg")]
                   (JStr "https://x/group.jpg")
                   (Demo.entry (JObj [("toString", JNull)])
                               (JStr "https://x/bob.jpg"))
                   (JObj [("toString", JNull)]) (JStr "https://x/bob.jpg")
                   _ demo_models_loaded (or_intror (or_introl eq_refl))
                   (conj eq_refl eq_refl) eq_refl eq_refl eq_refl)).
  repeat split.
Defined.

(** A group image whose body cannot be decoded. *)
Lemma group_stage_failure_is_reported_witness :
  result (loadImage Demo.world (JStr "https://x/broken.jpg")) =
  inr (Error "Unsupported image type") /\
  snd (handler Demo.world
         (Demo.request (JArr [Demo.alice]) (JStr "https://x/broken.jpg"))) =
  json 500 (JObj [("error", JStr "Failed to process group image");
                  ("message", JStr "Unsupported image type")]).
Proof.
  split; [reflexivity|].
  refine (proj1 (@group_stage_failure_is_reported _ Demo.world
                   (Demo.request (JArr [Demo.alice])
                                 (JStr "https://x/broken.jpg"))
                   [Demo.alice] (JStr "https://x/broken.jpg")
                   [{| ld_label := "alice"; descriptors := [[0; 0]%float] |}]
                   (Error "Unsupported image type")
                   _ demo_models_loaded eq_refl _ (or_introl eq_refl))).
  - repeat split.
  - discriminate.
Defined.

(** The matcher of the scenario. *)
Lemma matcher_is_never_built_empty_witness :
  In (EvNewFaceMatcher
        [{| ld_label := "alice"; descriptors := [[0; 0]%float] |}] THRESHOLD)
     (fst (handler Demo.world
             (Demo.request (JArr [Demo.alice]) (JStr "https://x/group.jpg")))) /\
  exists entries group_img,
    validated (Demo.request (JArr [Demo.alice]) (JStr "https://x/group.jpg"))
              entries group_img /\
    result (loadLabeledImages Demo.world entries) =
    inl [{| ld_label := "alice"; descriptors := [[0; 0]%float] |}].
Proof.
  assert (Hin :
    In (EvNewFaceMatcher
          [{| ld_label := "alice"; descriptors := [[0; 0]%float] |}] THRESHOLD)
       (fst (handler Demo.world
               (Demo.request (JArr [Demo.alice])
                             (JStr "https://x/group.jpg"))))).
  { vm_compute. do 6 right. left. reflexivity. }
  split; [exact Hin|].
  exact (proj2 (proj2 (@matcher_is_never_built_empty _ Demo.world _ _ _ Hin))).
Defined.

(** The detector call of the scenario. *)
Lemma detectAllFaces_only_on_the_group_image_witness :
  In (EvDetectAllFaces 16)
     (fst (handler Demo.world
             (Demo.request (JArr [Demo.alice]) (JStr "https://x/group.jpg")))) /\
  exists entries group_img lds,
    validated (Demo.request (JArr [Demo.alice]) (JStr "https://x/group.jpg"))
              entries group_img /\
    result (loadLabeledImages Demo.world entries) = inl lds /\
    lds <> [] /\
    result (loadImage Demo.world group_img) = inl 16.
Proof.
  assert (Hin :
    In (EvDetectAllFaces 16)
       (fst (handler Demo.world
               (Demo.request (JArr [Demo.alice])
                             (JStr "https://x/group.jpg"))))).
  { vm_compute. do 9 right. left. reflexivity. }
  split; [exact Hin|].
  exact (@detectAllFaces_only_on_the_group_image _ Demo.world _ _ Hin).
Defined.

(** A dataset of a string and of an entry with an empty id. *)
Lemma dataset_without_valid_entries_witness :
  loadLabeledImages Demo.world
    [JStr "abc"; Demo.entry (JStr "") (JStr "https://x/alice.jpg")] =
  ([], inl []) /\
  handler Demo.world
    (Demo.request
       (JArr [JStr "abc"; Demo.entry (JStr "") (JStr "https://x/alice.jpg")])
       (JStr "https://x/group.jpg")) =
  (modelLoads Demo.world, json 400 noDescriptors).
Proof.
  refine (@dataset_without_valid_entries _ Demo.world
            (Demo.request
               (JArr [JStr "abc";
                      Demo.entry (JStr "") (JStr "https://x/alice.jpg")])
               (JStr "https://x/group.jpg"))
            _ (JStr "https://x/group.jpg") _ demo_models_loaded _).
  - repeat split.
  - repeat constructor.
    + exists JUndefined, JUndefined. split; [split; reflexivity | now left].
    + exists (JStr ""), (JStr "https://x/alice.jpg").
      split; [split; reflexivity | now left].
Defined.

(** A [null] before a good entry: the request fails, the image of the good
    entry is fetched all the same. *)
Lemma every_entry_is_processed_witness :
  status (snd (handler Demo.world
                 (Demo.request (JArr [JNull; Demo.alice])
                               (JStr "https://x/group.jpg")))) = 500 /\
  In (EvFetch (JStr "https://x/alice.jpg"))
     (fst (handler Demo.world
             (Demo.request (JArr [JNull; Demo.alice])
                           (JStr "https://x/group.jpg")))).
Proof.
  split; [reflexivity|].
  refine (@every_entry_is_processed _ Demo.world
            (Demo.request (JArr [JNull; Demo.alice])
                          (JStr "https://x/group.jpg"))
            [JNull; Demo.alice] (JStr "https://x/group.jpg") Demo.alice _
            _ demo_models_loaded (or_intror (or_introl eq_refl)) _).
  - repeat split.
  - left. reflexivity.
Defined.
